(** * universalpayload: relocation, trampolines, FIT metadata, HOB padding

    A shallow embedding of [pkg/boot/universalpayload/utilities.go] and of
    the arm64 variant of [constructTrampoline], with the properties the
    specification states about them.

    Conventions.
    - A Go [uintN] is a [Z] in [[0, 2^N)]; every arithmetic operation of the
      source that can leave the range is followed by its wrap-around
      ([uint16], [uint32], [uint64] below).  [int] is 64 bits wide (the two
      targets of the package are amd64 and arm64).
    - A [[]byte] is a [list byte]; little-endian decoding and encoding are
      coqutil's [le_combine] and [le_split].
    - A Go call either returns [nil], returns an error, or panics at run
      time (index out of range): type [result]. *)

From Stdlib Require Import ZArith String List Lia Bool Arith.
From coqutil Require Import Byte Word.LittleEndianList.
From Stdlib Require Import Ascii.
Import ListNotations.
Local Open Scope Z_scope.

(** ** Constants and errors *)

Definition tmpHobSize : Z := 0x1000.
Definition tmpStackSize : Z := 0x1000.
Definition tmpStackTop : Z := 0x2000.
Definition tmpEntryOffset : Z := 0x2000.
Definition trampolineSize : Z := 0x1000.

Definition IMAGE_REL_BASED_ABSOLUTE : Z := 0.
Definition IMAGE_REL_BASED_HIGHLOW : Z := 3.
Definition IMAGE_REL_BASED_DIR64 : Z := 10.

Definition FirstLevelNodeName : string := "images".
Definition SecondLevelNodeName : string := "tianocore".
Definition LoadAddrPropertyName : string := "load".
Definition EntryAddrPropertyName : string := "entry-start".
Definition DataOffsetPropertyName : string := "data-offset".
Definition DataSizePropertyName : string := "data-size".

Definition MaxInt : Z := 2 ^ 63 - 1.

Inductive error : Type :=
| ErrFailToReadFdtFile
| ErrNodeImagesNotFound
| ErrNodeTianocoreNotFound
| ErrNodeLoadNotFound
| ErrNodeEntryStartNotFound
| ErrNodeDataOffsetNotFound
| ErrNodeDataSizeNotFound
| ErrFailToConvertLoad
| ErrFailToConvertEntryStart
| ErrFailToConvertDataOffset
| ErrFailToConvertDataSize
| ErrPeFailToGetPageRVA
| ErrPeFailToGetBlockSize
| ErrPeFailToGetEntry
| ErrPeFailToCreatePeFile
| ErrPeFailToGetRelocData
| ErrPeUnsupportedPeHeader
| ErrPeRelocOutOfBound
| ErrAlignPadRange.

(** What a call of type [func(...) error] does. *)
Inductive result : Type :=
| Ok
| Err (e : error)
| Panic.

Record FdtLoad : Type := mkFdtLoad {
  Load : Z;
  EntryStart : Z;
  DataOffset : Z;
  DataSize : Z
}.

(** ** Fixed-width integers *)

Definition uint16 (z : Z) : Z := z mod 2 ^ 16.
Definition uint32 (z : Z) : Z := z mod 2 ^ 32.
Definition uint64 (z : Z) : Z := z mod 2 ^ 64.

Definition len (b : list byte) : Z := Z.of_nat (length b).

(** ** encoding/binary on byte slices *)

(** [binary.LittleEndian.Uint64(b)]: starts with the bounds check
    [_ = b[7]], which panics on a slice shorter than 8 bytes ([None]). *)
Definition Uint64 (b : list byte) : option Z :=
  if (8 <=? length b)%nat then Some (le_combine (firstn 8 b)) else None.

(** [binary.LittleEndian.PutUint64(b, v)]: same bounds check, then the
    first 8 bytes of [b] are overwritten. *)
Definition PutUint64 (b : list byte) (v : Z) : option (list byte) :=
  if (8 <=? length b)%nat then Some (le_split 8 v ++ skipn 8 b) else None.

(** [binary.Read(r, binary.LittleEndian, &x)] on a [bytes.Reader] holding
    [r], for [x] of [n] bytes: [io.EOF] when nothing is left,
    [io.ErrUnexpectedEOF] on fewer than [n] bytes. *)
Inductive read : Type :=
| ReadOk (v : Z) (rest : list byte)
| EOF
| ErrUnexpectedEOF.

Definition binary_Read (n : nat) (r : list byte) : read :=
  match r with
  | [] => EOF
  | _ :: _ =>
      if (n <=? length r)%nat
      then ReadOk (le_combine (firstn n r)) (skipn n r)
      else ErrUnexpectedEOF
  end.

(** ** relocatePE *)

(** Lines 315-324: the body of [if entryType == IMAGE_REL_BASED_DIR64].
    [data[relocAddr:]] aliases the tail of [data]; the write goes through
    to [data]. *)
Definition relocateDIR64 (pageRVA entryOffset delta : Z) (data : list byte)
  : result * list byte :=
  let relocAddr := uint32 (pageRVA + entryOffset) in
  if relocAddr >=? uint32 (len data) then (Err ErrPeRelocOutOfBound, data)
  else
    let b := skipn (Z.to_nat relocAddr) data in
    match Uint64 b with
    | None => (Panic, data)
    | Some originalValue =>
        let relocatedValue := uint64 (originalValue + delta) in
        match PutUint64 b relocatedValue with
        | None => (Panic, data)
        | Some b' => (Ok, firstn (Z.to_nat relocAddr) data ++ b')
        end
    end.

(** Lines 310-324: what the loop body does with one entry it has read. *)
Definition relocateEntry (pageRVA delta entry : Z) (data : list byte)
  : result * list byte :=
  let entryType := Z.shiftr entry 12 in
  let entryOffset := Z.land entry 0xfff in
  if entryType =? IMAGE_REL_BASED_DIR64
  then relocateDIR64 pageRVA entryOffset delta data
  else (Ok, data).

(** How the entry loop of one block ends. *)
Inductive entries : Type :=
| Done (rest : list byte) (data : list byte)
| Stop (res : result) (data : list byte).

(** Lines 303-325: [for i := 0; i < int(entryCount); i++].  Every round
    reads two bytes, so the loop is written by recursion on the bytes left
    in the reader; [binary.Read] of a [uint16] is inlined as the pattern
    [b0 :: b1 :: r'] (lemma [binary_Read_2] below). *)
Fixpoint relocateEntries (r : list byte) (i entryCount pageRVA delta : Z)
  (data : list byte) {struct r} : entries :=
  if i <? entryCount then
    match r with
    | b0 :: b1 :: r' =>
        let entry := le_combine [b0; b1] in
        match relocateEntry pageRVA delta entry data with
        | (Ok, data') => relocateEntries r' (i + 1) entryCount pageRVA delta data'
        | (res, data') => Stop res data'
        end
    | _ => Stop (Err ErrPeFailToGetEntry) data
    end
  else Done r data.

(** Lines 284-326: the loop over blocks.  Every round that goes on has
    consumed the 8 bytes of a header, so [S (length relocData)] rounds of
    fuel are never used up ([relocateBlocks_total] below); [None] is the
    fuel running out. *)
Fixpoint relocateBlocks (fuel : nat) (r : list byte) (delta : Z)
  (data : list byte) : option (result * list byte) :=
  match fuel with
  | O => None
  | S fuel' =>
      match binary_Read 4 r with
      | EOF => Some (Ok, data)
      | ErrUnexpectedEOF => Some (Err ErrPeFailToGetPageRVA, data)
      | ReadOk pageRVA r1 =>
          match binary_Read 4 r1 with
          | ReadOk blockSize r2 =>
              let entryCount := uint32 (blockSize - 8) / 2 in
              match relocateEntries r2 0 entryCount pageRVA delta data with
              | Done r3 data' => relocateBlocks fuel' r3 delta data'
              | Stop res data' => Some (res, data')
              end
          | _ => Some (Err ErrPeFailToGetBlockSize, data)
          end
      end
  end.

Definition relocatePE (relocData : list byte) (delta : Z) (data : list byte)
  : result * list byte :=
  match relocateBlocks (S (length relocData)) relocData delta data with
  | Some res => res
  | None => (Ok, data)
  end.

(** ** relocateFdtdata *)

(** Package [debug/pe] of the Go library, as far as [relocateFdtdata] looks
    at a parsed file: the dynamic type of [OptionalHeader] (with
    [ImageBase] for the 64-bit one) and the sections with [Name] and
    [Data()].  [Data()] reads through the section's reader from the bytes
    the file was opened on, which here is [data[start:end]] itself:
    [sectionData] takes the image bytes as they are at the time of the
    call. *)
Inductive pe_OptionalHeader : Type :=
| NoOptionalHeader
| OptionalHeader32
| OptionalHeader64 (ImageBase : Z).

Record pe_Section : Type := mkSection {
  sectionName : string;
  sectionData : list byte -> option (list byte)
}.

Record pe_File : Type := mkFile {
  OptionalHeader : pe_OptionalHeader;
  Sections : list pe_Section
}.

(** [data[lo:hi]] for [0 <= lo <= hi <= cap(data)]. *)
Definition slice (data : list byte) (lo hi : Z) : list byte :=
  firstn (Z.to_nat (hi - lo)) (skipn (Z.to_nat lo) data).

(** Lines 351-362: [for _, section := range peFile.Sections]. *)
Fixpoint relocateSections (sections : list pe_Section) (delta : Z)
  (image : list byte) : result * list byte :=
  match sections with
  | [] => (Ok, image)
  | section :: sections' =>
      if String.eqb (sectionName section) ".reloc" then
        match sectionData section image with
        | None => (Err ErrPeFailToGetRelocData, image)
        | Some relocData =>
            match relocatePE relocData delta image with
            | (Ok, image') => relocateSections sections' delta image'
            | (res, image') => (res, image')
            end
        end
      else relocateSections sections' delta image
  end.

Section RelocateFdtdata.

(** [pe.NewFile] on a reader over the given bytes; [None] is an error. *)
Variable pe_NewFile : list byte -> option pe_File.

(** [data] is the blob as far as its capacity reaches: the slice
    expression [data[start:end]] is checked against [cap(data)], and
    [len(data)] is never looked at.  The function returns its error, the
    [FdtLoad] behind the pointer and the blob as it leaves them. *)
Definition relocateFdtdata (dst : Z) (fdtLoad : FdtLoad) (data : list byte)
  : result * FdtLoad * list byte :=
  let start := DataOffset fdtLoad in
  let end_ := uint32 (DataOffset fdtLoad + DataSize fdtLoad) in
  if (start <=? end_) && (end_ <=? len data) then
    let image := slice data start end_ in
    match pe_NewFile image with
    | None => (Err ErrPeFailToCreatePeFile, fdtLoad, data)
    | Some peFile =>
        match OptionalHeader peFile with
        | OptionalHeader64 preBase =>
            let delta := uint64 (uint64 (dst + DataOffset fdtLoad) - preBase) in
            let '(res, image') := relocateSections (Sections peFile) delta image in
            let data' :=
              firstn (Z.to_nat start) data ++ image' ++ skipn (Z.to_nat end_) data in
            match res with
            | Ok =>
                let entryStart :=
                  uint64 (dst + uint64 (EntryStart fdtLoad - Load fdtLoad)) in
                (Ok,
                 {| Load := dst;
                    EntryStart := entryStart;
                    DataOffset := DataOffset fdtLoad;
                    DataSize := DataSize fdtLoad |},
                 data')
            | _ => (res, fdtLoad, data')
            end
        | _ => (Err ErrPeUnsupportedPeHeader, fdtLoad, data)
        end
    end
  else (Panic, fdtLoad, data).

End RelocateFdtdata.

(** ** alignHOBLength *)

(** Conversion to [int] (two's complement, 64 bits). *)
Definition int (z : Z) : Z := (z + 2 ^ 63) mod 2 ^ 64 - 2 ^ 63.

(** [buf] is the content of the [bytes.Buffer]; [binary.Write] of a
    [[]byte] appends it, and a write to a [bytes.Buffer] returns no
    error. *)
Definition alignHOBLength (expectLen bufLen : Z) (buf : list byte)
  : result * list byte :=
  if expectLen <? uint64 bufLen then (Err ErrAlignPadRange, buf)
  else if expectLen >? MaxInt then (Err ErrAlignPadRange, buf)
  else
    let padLen := int (int expectLen - bufLen) in
    if padLen >? 0 then
      let pad := repeat Byte.x00 (Z.to_nat padLen) in
      (Ok, buf ++ pad)
    else (Ok, buf).

(** ** constructTrampoline *)

Module Amd64.

Definition loadStackAddress : list byte :=
  map byte.of_Z [0x48; 0x8b; 0x05; 0x19; 0x00; 0x00; 0x00].
Definition setStackAddress : list byte := map byte.of_Z [0x48; 0x89; 0xc4].
Definition loadBootparameter : list byte :=
  map byte.of_Z [0x48; 0x8b; 0x05; 0x17; 0x00; 0x00; 0x00].
Definition setBootparameter : list byte := map byte.of_Z [0x48; 0x89; 0xc1].
Definition loadKernelAddress : list byte :=
  map byte.of_Z [0x48; 0x8b; 0x05; 0x15; 0x00; 0x00; 0x00].
Definition jumpToKernelAddress : list byte := map byte.of_Z [0xff; 0xe0].
Definition padForAlignment : list byte := map byte.of_Z [0x00; 0x00; 0x00].

Definition appendUint64 (slice : list byte) (value : Z) : list byte :=
  slice ++ le_split 8 value.

Definition constructTrampoline (buf : list byte) (hobAddr entry : Z)
  : list byte :=
  let buf := buf ++ loadStackAddress in
  let buf := buf ++ setStackAddress in
  let buf := buf ++ loadBootparameter in
  let buf := buf ++ setBootparameter in
  let buf := buf ++ loadKernelAddress in
  let buf := buf ++ jumpToKernelAddress in
  let buf := buf ++ padForAlignment in
  let stackTop := uint64 (hobAddr + tmpStackTop) in
  let buf := appendUint64 buf stackTop in
  let buf := appendUint64 buf hobAddr in
  let buf := appendUint64 buf entry in
  buf.

End Amd64.

Module Arm64.

Definition appendUint32 (slice : list byte) (value : Z) : list byte :=
  slice ++ le_split 4 value.

Definition constructTrampoline (buf : list byte) (hobAddr entry : Z)
  : list byte :=
  let stackTop := uint64 (hobAddr + tmpStackTop) in
  let buf := appendUint32 buf 0x580000c4 in
  let buf := appendUint32 buf 0x580000e0 in
  let buf := appendUint32 buf 0xaa1f03e1 in
  let buf := appendUint32 buf 0x580000e2 in
  let buf := appendUint32 buf 0x9100005f in
  let buf := appendUint32 buf 0xd61f0080 in
  let buf := appendUint32 buf (uint32 (Z.land entry 0xffffffff)) in
  let buf := appendUint32 buf (uint32 (Z.shiftr entry 32)) in
  let buf := appendUint32 buf (uint32 (Z.land hobAddr 0xffffffff)) in
  let buf := appendUint32 buf (uint32 (Z.shiftr hobAddr 32)) in
  let buf := appendUint32 buf (uint32 (Z.land stackTop 0xffffffff)) in
  let buf := appendUint32 buf (uint32 (Z.shiftr stackTop 32)) in
  buf.

End Arm64.

(** ** getFdtInfo *)

(** Modelled from the spec: package [dt] (pkg/dt of this repository, whose
    source is not at hand) is the device-tree library of the
    specification's section on external interfaces: reading a blob into a
    tree, node lookup by name (found or not), property lookup by name
    (found or not) and decoding of a property as an unsigned 32-bit or
    64-bit big-endian integer (a value or a decode error).  [getFdtInfo] is
    written against this interface. *)
Class DeviceTree : Type := {
  ReaderAt : Type;
  FDT : Type;
  Node : Type;
  Property : Type;
  (** [dt.ReadFDT] on a section reader over [dtb]; [None] is an error. *)
  ReadFDT : ReaderAt -> option FDT;
  (** [dt.ReadFile]; [None] is an error. *)
  ReadFile : string -> option FDT;
  FDT_NodeByName : FDT -> string -> option Node;
  Node_NodeByName : Node -> string -> option Node;
  LookProperty : Node -> string -> option Property;
  AsU64 : Property -> option Z;
  AsU32 : Property -> option Z
}.

Section GetFdtInfo.

Context {dt : DeviceTree}.

(** Lines 107-111. *)
Definition readFdt (name : string) (dtb : option ReaderAt) : option FDT :=
  match dtb with
  | Some r => ReadFDT r
  | None => ReadFile name
  end.

(** The pair returned is the pointer to an [FdtLoad] (nil is [None]) and
    the error; a wrapped or joined error
    is named by the package's own sentinel in it. *)
Definition getFdtInfo (name : string) (dtb : option ReaderAt)
  : option FdtLoad * option error :=
  match readFdt name dtb with
  | None => (None, Some ErrFailToReadFdtFile)
  | Some fdt =>
  match FDT_NodeByName fdt FirstLevelNodeName with
  | None => (None, Some ErrNodeImagesNotFound)
  | Some firstLevelNode =>
  match Node_NodeByName firstLevelNode SecondLevelNodeName with
  | None => (None, Some ErrNodeTianocoreNotFound)
  | Some secondLevelNode =>
  match LookProperty secondLevelNode LoadAddrPropertyName with
  | None => (None, Some ErrNodeLoadNotFound)
  | Some loadAddrProp =>
  match AsU64 loadAddrProp with
  | None => (None, Some ErrFailToConvertLoad)
  | Some loadAddr =>
  match LookProperty secondLevelNode EntryAddrPropertyName with
  | None => (None, Some ErrNodeEntryStartNotFound)
  | Some entryAddrProp =>
  match AsU64 entryAddrProp with
  | None => (None, Some ErrFailToConvertEntryStart)
  | Some entryAddr =>
  match LookProperty secondLevelNode DataOffsetPropertyName with
  | None => (None, Some ErrNodeDataOffsetNotFound)
  | Some dataOffsetProp =>
  match AsU32 dataOffsetProp with
  | None => (None, Some ErrFailToConvertDataOffset)
  | Some dataOffset =>
  match LookProperty secondLevelNode DataSizePropertyName with
  | None => (None, Some ErrNodeDataSizeNotFound)
  | Some dataSizeProp =>
  match AsU32 dataSizeProp with
  | None => (None, Some ErrFailToConvertDataSize)
  | Some dataSize =>
      (Some {| Load := loadAddr;
               EntryStart := entryAddr;
               DataOffset := dataOffset;
               DataSize := dataSize |},
       None)
  end end end end end end end end end end end.

(** [GetFdtInfo], line 99. *)
Definition GetFdtInfo (name : string) : option FdtLoad * option error :=
  getFdtInfo name None.

End GetFdtInfo.

(** Modelled from the spec: a device tree as the specification describes
    it, for running [getFdtInfo] on concrete trees: a node has a name,
    named properties holding bytes, and child nodes; [images] is looked up
    among the top-level nodes and [tianocore] among the children of
    [images]; a property decodes as a big-endian integer when it has
    exactly the bytes of one. A blob stands for the tree it encodes, and
    [files] for the blobs on disk. *)
#[local] Set Warnings "-register-all".
Inductive tree : Type :=
| mkNode (name : string) (props : list (string * list byte)) (children : list tree).

Definition treeName (n : tree) : string := let 'mkNode s _ _ := n in s.
Definition treeProps (n : tree) : list (string * list byte) :=
  let 'mkNode _ ps _ := n in ps.
Definition treeChildren (n : tree) : list tree := let 'mkNode _ _ cs := n in cs.

Definition childByName (n : tree) (name : string) : option tree :=
  find (fun c => String.eqb (treeName c) name) (treeChildren n).

Definition propByName (n : tree) (name : string) : option (list byte) :=
  option_map snd (find (fun p => String.eqb (fst p) name) (treeProps n)).

Definition be_combine (bs : list byte) : Z := le_combine (rev bs).
Definition be_split (n : nat) (z : Z) : list byte := rev (le_split n z).

Definition asUint (n : nat) (value : list byte) : option Z :=
  if (length value =? n)%nat then Some (be_combine value) else None.

Definition treeDT (files : string -> option tree) : DeviceTree := {|
  ReaderAt := tree;
  FDT := tree;
  Node := tree;
  Property := list byte;
  ReadFDT := Some;
  ReadFile := files;
  FDT_NodeByName := childByName;
  Node_NodeByName := childByName;
  LookProperty := propByName;
  AsU64 := asUint 8;
  AsU32 := asUint 4
|}.

(** ** getPhysicalAddressSizes (amd64) *)

(** The errors of the probe.  The failure of [os.Open] is wrapped in an
    error without a sentinel of the package: [ErrOpen]. *)
Inductive cpuError : Type :=
| ErrOpen
| ErrCPUAddressNotFound
| ErrCPUAddressRead
| ErrCPUAddressConvert.

Definition uint8 (z : Z) : Z := z mod 2 ^ 8.

(** The classes [\s] and [\d] of the pattern of line 188, in the syntax
    of package [regexp]: tab, line feed, form feed, carriage return and
    space; the ten digits. *)
Definition isSpace (c : ascii) : bool :=
  Ascii.eqb c "009" || Ascii.eqb c "010" || Ascii.eqb c "012"
  || Ascii.eqb c "013" || Ascii.eqb c " ".

Definition isDigit (c : ascii) : bool :=
  (48 <=? nat_of_ascii c)%nat && (nat_of_ascii c <=? 57)%nat.

(** The longest prefix in a class, and what follows it. *)
Fixpoint span (p : ascii -> bool) (s : list ascii) : list ascii * list ascii :=
  match s with
  | [] => ([], [])
  | c :: s' =>
      if p c then let (a, b) := span p s' in (c :: a, b) else ([], s)
  end.

(** What follows the literal [lit] at the head of [s]. *)
Fixpoint literal (lit s : list ascii) : option (list ascii) :=
  match lit, s with
  | [], _ => Some s
  | c :: lit', d :: s' => if Ascii.eqb c d then literal lit' s' else None
  | _ :: _, [] => None
  end.

(** A match of
    [address sizes\s*:\s*(\d+)\s+bits physical,\s*(\d+)\s+bits virtual]
    that starts at the head of [s]: its two groups.  Every repetition of
    the pattern is followed by a character outside its class, so a match
    takes each run of spaces or digits whole and there is nothing to
    backtrack over. *)
Definition matchHere (s : list ascii) : option (list ascii * list ascii) :=
  match literal (list_ascii_of_string "address sizes") s with
  | None => None
  | Some s =>
  let (_, s) := span isSpace s in
  match literal (list_ascii_of_string ":") s with
  | None => None
  | Some s =>
  let (_, s) := span isSpace s in
  let (phys, s) := span isDigit s in
  match phys with
  | [] => None
  | _ :: _ =>
  let (sp, s) := span isSpace s in
  match sp with
  | [] => None
  | _ :: _ =>
  match literal (list_ascii_of_string "bits physical,") s with
  | None => None
  | Some s =>
  let (_, s) := span isSpace s in
  let (virt, s) := span isDigit s in
  match virt with
  | [] => None
  | _ :: _ =>
  let (sp, s) := span isSpace s in
  match sp with
  | [] => None
  | _ :: _ =>
  match literal (list_ascii_of_string "bits virtual") s with
  | None => None
  | Some _ => Some (phys, virt)
  end end end end end end end end.

(** [re.FindStringSubmatch(line)]: the groups of the leftmost match,
    [match[1]] and [match[2]]; [None] is [nil]. *)
Fixpoint FindStringSubmatch (line : list ascii) : option (list ascii * list ascii) :=
  match matchHere line with
  | Some m => Some m
  | None =>
      match line with
      | [] => None
      | _ :: line' => FindStringSubmatch line'
      end
  end.

(** The value of a string of decimal digits, most significant first;
    [None] on any other character. *)
Fixpoint digitsValue (acc : Z) (s : list ascii) : option Z :=
  match s with
  | [] => Some acc
  | c :: s' =>
      if isDigit c
      then digitsValue (10 * acc + (Z.of_nat (nat_of_ascii c) - 48)) s'
      else None
  end.

(** [strconv.ParseUint(s, 10, 8)]: a syntax error on the empty string and
    on any character that is not a digit, a range error above 255; [None]
    is an error. *)
Definition ParseUint8 (s : list ascii) : option Z :=
  match s with
  | [] => None
  | _ :: _ =>
      match digitsValue 0 s with
      | Some v => if v <=? 255 then Some v else None
      | None => None
      end
  end.

(** Lines 191-207: the loop over the lines the scanner yields, and what
    follows it; [scanErr] tells whether [scanner.Err()] is an error when
    the scanner stops. *)
Fixpoint scanLines (lines : list (list ascii)) (scanErr : bool)
  : Z * option cpuError :=
  match lines with
  | [] =>
      if scanErr then (0, Some ErrCPUAddressRead)
      else (0, Some ErrCPUAddressNotFound)
  | line :: lines' =>
      match FindStringSubmatch line with
      | Some (phys, _) =>
          match ParseUint8 phys with
          | None => (0, Some ErrCPUAddressConvert)
          | Some physicalBits => (uint8 physicalBits, None)
          end
      | None => scanLines lines' scanErr
      end
  end.

(** [file] is what [os.Open] and the scanner give: [None] when the file
    cannot be opened, otherwise the lines and the way the scan ends. *)
Definition getPhysicalAddressSizes (file : option (list (list ascii) * bool))
  : Z * option cpuError :=
  match file with
  | None => (0, Some ErrOpen)
  | Some (lines, scanErr) => scanLines lines scanErr
  end.

(** ** Notions used in the statements *)

(** The stub of either variant: the bytes that follow [buf]. *)
Definition stub (out buf : list byte) : list byte := skipn (length buf) out.

(** The instructions of the two stubs, before the three immediates. *)
Definition Amd64_code : list byte :=
  map byte.of_Z
    [0x48; 0x8b; 0x05; 0x19; 0x00; 0x00; 0x00; 0x48; 0x89; 0xc4;
     0x48; 0x8b; 0x05; 0x17; 0x00; 0x00; 0x00; 0x48; 0x89; 0xc1;
     0x48; 0x8b; 0x05; 0x15; 0x00; 0x00; 0x00; 0xff; 0xe0;
     0x00; 0x00; 0x00].

Definition Arm64_code : list byte :=
  le_split 4 0x580000c4 ++ le_split 4 0x580000e0 ++ le_split 4 0xaa1f03e1
  ++ le_split 4 0x580000e2 ++ le_split 4 0x9100005f ++ le_split 4 0xd61f0080.

(** The tree of the comment above [GetFdtInfo]. *)
Definition exampleTianocore : tree :=
  mkNode "tianocore"
    [("data-offset"%string, be_split 4 0x1000);
     ("data-size"%string, be_split 4 0x10000);
     ("entry-start"%string, be_split 8 0x805ac3);
     ("load"%string, be_split 8 0x800000)] [].

Definition exampleFdt : tree :=
  mkNode "" [] [mkNode "images" [] [exampleTianocore]].

Definition noFiles : string -> option tree := fun _ => None.

(** What a loop or a walk may end in when nothing is wrong with the
    framing of the stream: [expected], or the failure of a fixup. *)
Definition unless_fixup_fails (out expected : result) : Prop :=
  out = expected \/ out = Err ErrPeRelocOutOfBound \/ out = Panic.

(** The two fields of an 8-byte block header and the number of entries the
    walker reads after it. *)
Definition pageRVAOf (hdr : list byte) : Z := le_combine (firstn 4 hdr).

Definition blockSizeOf (hdr : list byte) : Z := le_combine (firstn 4 (skipn 4 hdr)).

Definition entryCount (blockSize : Z) : Z := uint32 (blockSize - 8) / 2.

(** A stream that ends at a block-header boundary: a sequence of blocks,
    each an 8-byte header followed by all the entries it announces. *)
Inductive framed : list byte -> Prop :=
| framed_nil : framed []
| framed_block (hdr ents rest : list byte) :
    length hdr = 8%nat ->
    len ents = 2 * entryCount (blockSizeOf hdr) ->
    framed rest ->
    framed (hdr ++ ents ++ rest).

(** A block header of page RVA 0 and block size 0: eight zero bytes. *)
Definition zeroHeader : list byte := le_split 4 0 ++ le_split 4 0.

(** The 64-bit little-endian value at [addr], and the image with that
    value replaced. *)
Definition valueAt (data : list byte) (addr : Z) : Z :=
  le_combine (firstn 8 (skipn (Z.to_nat addr) data)).

Definition putAt (data : list byte) (addr : Z) (v : Z) : list byte :=
  firstn (Z.to_nat addr) data ++ le_split 8 v ++ skipn 8 (skipn (Z.to_nat addr) data).

(** The address a DIR64 entry of offset [entryOffset] points to. *)
Definition relocAddr (pageRVA entryOffset : Z) : Z := uint32 (pageRVA + entryOffset).

(** The test of line 315 on a 16-bit entry. *)
Definition isDIR64 (entry : Z) : bool :=
  Z.shiftr entry 12 =? IMAGE_REL_BASED_DIR64.

(** The addresses the DIR64 entries among [es] point to, in the order of
    the entries. *)
Definition targets (pageRVA : Z) (es : list Z) : list Z :=
  map (fun e => relocAddr pageRVA (Z.land e 0xfff)) (filter isDIR64 es).

(** The entries as they lie in the stream, two bytes each. *)
Definition encodeEntries (es : list Z) : list byte := flat_map (le_split 2) es.

(** The bytes of one block: page RVA, block size (header included) and
    the 16-bit entries [es]. *)
Definition block (pageRVA : Z) (es : list Z) : list byte :=
  le_split 4 pageRVA ++ le_split 4 (8 + 2 * Z.of_nat (length es)) ++ encodeEntries es.

(** No two of the 8-byte ranges at the addresses overlap. *)
Fixpoint spaced (addrs : list Z) : Prop :=
  match addrs with
  | [] => True
  | a :: addrs' => Forall (fun b => 8 <= Z.abs (a - b)) addrs' /\ spaced addrs'
  end.

(** The fixups at [addrs], one after the other. *)
Definition applyFixups (delta : Z) (addrs : list Z) (data : list byte) : list byte :=
  fold_left (fun d a => putAt d a (uint64 (valueAt d a + delta))) addrs data.

(** The 8 bytes at [addr] lie inside the image. *)
Definition inBounds (data : list byte) (addr : Z) : Prop :=
  0 <= addr /\ addr + 8 <= len data.

(** A parsed file for running [relocateFdtdata]: a 64-bit optional header
    of image base [0x800000] and one [.reloc] section, of one block with
    one DIR64 entry of offset 0; the image is one 64-bit pointer, 16 bytes
    into the blob. *)
Definition examplePeFile : pe_File :=
  {| OptionalHeader := OptionalHeader64 0x800000;
     Sections := [ {| sectionName := ".reloc";
                      sectionData := fun _ => Some (block 0 [0xA000]) |} ] |}.

Definition exampleNewFile : list byte -> option pe_File :=
  fun _ => Some examplePeFile.

Definition exampleBlob : list byte := repeat Byte.x00 16 ++ le_split 8 0x800100.

Definition exampleFdtLoad : FdtLoad :=
  {| Load := 0x800000; EntryStart := 0x805ac3; DataOffset := 16; DataSize := 8 |}.

(** The conditions under which the fixups of one block are independent
    of each other: fields in their ranges, an image shorter than [2^32]
    bytes, every DIR64 target with its 8 bytes inside the image, no two
    targets overlapping. *)
Definition fixupsFit (pageRVA : Z) (es : list Z) (data : list byte) : Prop :=
  0 <= pageRVA < 2 ^ 32 /\
  Forall (fun e => 0 <= e < 2 ^ 16) es /\
  8 + 2 * Z.of_nat (length es) < 2 ^ 32 /\
  len data < 2 ^ 32 /\
  Forall (fun a => a + 8 <= len data) (targets pageRVA es) /\
  spaced (targets pageRVA es).

(** A section that line 352 passes over. *)
Definition notReloc (section : pe_Section) : Prop :=
  String.eqb (sectionName section) ".reloc" = false.

(** The metadata a successful call of [relocateFdtdata] leaves. *)
Definition rebased (dst : Z) (fdtLoad : FdtLoad) : FdtLoad :=
  {| Load := dst;
     EntryStart := uint64 (dst + uint64 (EntryStart fdtLoad - Load fdtLoad));
     DataOffset := DataOffset fdtLoad;
     DataSize := DataSize fdtLoad |}.

(** A block and an image to run the walker on: DIR64 entries at offsets 0
    and 16, an ABSOLUTE entry in between, three 64-bit values. *)
Definition exampleEntries : list Z := [0xA000; 0x0008; 0xA010].

Definition exampleImage : list byte :=
  le_split 8 0x140001000 ++ le_split 8 7 ++ le_split 8 (2 ^ 64 - 1).

(** A parsed file without a [.reloc] section. *)
Definition exampleNoReloc : pe_File :=
  {| OptionalHeader := OptionalHeader64 0x800000;
     Sections := [ {| sectionName := ".text"; sectionData := fun _ => None |} ] |}.

(** A tree whose [load] has 4 bytes and no other property. *)
Definition exampleShortLoad : tree :=
  mkNode "" []
    [mkNode "images" []
       [mkNode "tianocore" [("load"%string, be_split 4 0x800000)] []]].

(** A line of the form the pattern of the probe describes: the two
    numbers [phys] and [virt] with runs of spaces [ws1] to [ws5] around
    them. *)
Definition addressSizesLine (ws1 ws2 phys ws3 ws4 virt ws5 : list ascii) : list ascii :=
  list_ascii_of_string "address sizes" ++ ws1 ++ list_ascii_of_string ":" ++ ws2
  ++ phys ++ ws3 ++ list_ascii_of_string "bits physical," ++ ws4
  ++ virt ++ ws5 ++ list_ascii_of_string "bits virtual".

(** A non-empty run of characters of a class. *)
Definition run (p : ascii -> bool) (s : list ascii) : Prop :=
  s <> [] /\ Forall (fun c => p c = true) s.

(** The line of the comment above [getPhysicalAddressSizes]. *)
Definition exampleCpuinfoLine : list ascii :=
  addressSizesLine ["009"%char] [" "%char] (list_ascii_of_string "39") [" "%char]
    [" "%char] (list_ascii_of_string "48") [" "%char].

(** What the probe returns once a line has matched with [phys] as first
    group. *)
Definition fromGroup (phys : list ascii) : Z * option cpuError :=
  match ParseUint8 phys with
  | None => (0, Some ErrCPUAddressConvert)
  | Some physicalBits => (physicalBits, None)
  end.




(** * Properties *)

(** ** Bytes and fixed-width integers *)

Lemma len_app (a b : list byte) : len (a ++ b) = len a + len b.
Proof. unfold len. rewrite length_app. lia. Qed.

Lemma len_nonneg (a : list byte) : 0 <= len a.
Proof. unfold len. lia. Qed.

Lemma le_split_app (n m : nat) (z : Z) :
  le_split (n + m) z = le_split n z ++ le_split m (Z.shiftr z (8 * Z.of_nat n)).
Proof.
  revert z. induction n as [|n IH]; intro z.
  - cbn [Nat.add app]. change (le_split 0 z) with (@nil byte).
    now rewrite Z.shiftr_0_r.
  - change (le_split (S n + m) z)
      with (byte.of_Z z :: le_split (n + m) (Z.shiftr z 8)).
    change (le_split (S n) z) with (byte.of_Z z :: le_split n (Z.shiftr z 8)).
    rewrite IH, (Z.shiftr_shiftr z 8 (8 * Z.of_nat n)) by lia.
    cbn [app]. do 4 f_equal. lia.
Qed.

Lemma firstn_exact {A : Type} (a b : list A) (n : nat) :
  length a = n -> firstn n (a ++ b) = a.
Proof.
  intros <-. rewrite firstn_app, Nat.sub_diag, firstn_all.
  cbn [firstn]. apply app_nil_r.
Qed.

Lemma firstn_exact_prefix {A : Type} (a b : list A) (n : nat) :
  length a = n -> firstn n (a ++ b) = firstn n a.
Proof. intro H. rewrite firstn_exact by exact H. subst n. now rewrite firstn_all. Qed.

Lemma firstn_app_le {A : Type} (a b : list A) (n : nat) :
  (n <= length a)%nat -> firstn n (a ++ b) = firstn n a.
Proof.
  intro H. rewrite firstn_app.
  replace (n - length a)%nat with 0%nat by lia.
  rewrite firstn_O. apply app_nil_r.
Qed.

Lemma skipn_app_le {A : Type} (a b : list A) (n : nat) :
  (n <= length a)%nat -> skipn n (a ++ b) = skipn n a ++ b.
Proof.
  intro H. rewrite skipn_app.
  replace (n - length a)%nat with 0%nat by lia. reflexivity.
Qed.

Lemma skipn_exact {A : Type} (a b : list A) (n : nat) :
  length a = n -> skipn n (a ++ b) = b.
Proof.
  intros <-. rewrite skipn_app, Nat.sub_diag, skipn_all. reflexivity.
Qed.

Lemma Uint64_le_split (v : Z) (rest : list byte) :
  Uint64 (le_split 8 v ++ rest) = Some (uint64 v).
Proof.
  unfold Uint64. rewrite length_app, length_le_split.
  cbn [Nat.add Nat.leb].
  rewrite firstn_exact by apply length_le_split.
  rewrite le_combine_split. reflexivity.
Qed.

Lemma uint64_small (z : Z) : 0 <= z < 2 ^ 64 -> uint64 z = z.
Proof. intro H. apply Z.mod_small. exact H. Qed.

Lemma uint32_small (z : Z) : 0 <= z < 2 ^ 32 -> uint32 z = z.
Proof. intro H. apply Z.mod_small. exact H. Qed.

(** ** alignHOBLength *)

Lemma int_small (z : Z) : - 2 ^ 63 <= z < 2 ^ 63 -> int z = z.
Proof. intro H. unfold int. rewrite Z.mod_small; lia. Qed.

(** The pad of the success path, in terms of the arguments only. *)
Lemma alignHOBLength_ok (expectLen bufLen : Z) (buf : list byte) :
  0 <= bufLen <= expectLen -> expectLen <= MaxInt ->
  alignHOBLength expectLen bufLen buf
  = (Ok, buf ++ repeat Byte.x00 (Z.to_nat (expectLen - bufLen))).
Proof.
  unfold MaxInt. intros Hb He. unfold alignHOBLength.
  rewrite uint64_small by lia.
  destruct (Z.ltb_spec expectLen bufLen); [lia|].
  destruct (expectLen >? MaxInt) eqn:Hgt.
  { apply Z.gtb_lt in Hgt. unfold MaxInt in Hgt. lia. }
  rewrite (int_small expectLen) by lia.
  rewrite int_small by lia.
  destruct (expectLen - bufLen >? 0) eqn:Hpad; [reflexivity|].
  assert (expectLen - bufLen = 0) as -> by (rewrite Z.gtb_ltb in Hpad; apply Z.ltb_ge in Hpad; lia).
  cbn [Z.to_nat repeat]. now rewrite app_nil_r.
Qed.

Lemma alignHOBLength_range (expectLen bufLen : Z) (buf : list byte) :
  0 <= bufLen < 2 ^ 64 -> expectLen < bufLen \/ expectLen > MaxInt ->
  alignHOBLength expectLen bufLen buf = (Err ErrAlignPadRange, buf).
Proof.
  intros Hb H. unfold alignHOBLength. rewrite uint64_small by lia.
  destruct (Z.ltb_spec expectLen bufLen); [reflexivity|].
  destruct (expectLen >? MaxInt) eqn:Hgt; [reflexivity|].
  rewrite Z.gtb_ltb in Hgt. apply Z.ltb_ge in Hgt. lia.
Qed.

(** C9. With the buffer's own length [L] passed as current length and an
    expected length [E] (a uint64): [E < L] or [E > MaxInt] fails with
    [ErrAlignPadRange] and the buffer is as before; [E = L] changes
    nothing; otherwise the buffer is followed by exactly [E - L] bytes, all
    zero, and has length [E]. *)
Theorem alignHOBLength_spec (E : Z) (buf : list byte) :
  0 <= E < 2 ^ 64 -> len buf <= MaxInt ->
  (E < len buf \/ E > MaxInt ->
   alignHOBLength E (len buf) buf = (Err ErrAlignPadRange, buf)) /\
  (E = len buf -> alignHOBLength E (len buf) buf = (Ok, buf)) /\
  (len buf < E <= MaxInt ->
   exists pad,
     alignHOBLength E (len buf) buf = (Ok, buf ++ pad) /\
     len pad = E - len buf /\
     Forall (fun b => b = Byte.x00) pad /\
     len (buf ++ pad) = E).
Proof.
  intros HE HL. pose proof (len_nonneg buf) as H0.
  unfold MaxInt in HL. split; [|split].
  - intro H. apply alignHOBLength_range; [lia | exact H].
  - intro H. rewrite alignHOBLength_ok by (unfold MaxInt; lia).
    rewrite H, Z.sub_diag. cbn [Z.to_nat repeat]. now rewrite app_nil_r.
  - intros [H1 H2]. exists (repeat Byte.x00 (Z.to_nat (E - len buf))).
    assert (len (repeat Byte.x00 (Z.to_nat (E - len buf))) = E - len buf) as Hp.
    { unfold len. rewrite repeat_length. unfold len in *. lia. }
    split; [apply alignHOBLength_ok; lia|].
    split; [exact Hp|]. split.
    + apply Forall_forall. intros b Hb. now apply repeat_spec in Hb.
    + rewrite len_app, Hp. lia.
Qed.

Lemma alignHOBLength_spec_witness :
  let buf := repeat Byte.x2a 10 in
  alignHOBLength 5 (len buf) buf = (Err ErrAlignPadRange, buf) /\
  exists pad,
    alignHOBLength 16 (len buf) buf = (Ok, buf ++ pad) /\
    len pad = 16 - len buf /\
    Forall (fun b => b = Byte.x00) pad /\
    len (buf ++ pad) = 16.
Proof.
  intro buf. split.
  - apply (alignHOBLength_spec 5 buf); [lia | vm_compute; discriminate | left; vm_compute; reflexivity].
  - apply (alignHOBLength_spec 16 buf); [lia | vm_compute; discriminate | vm_compute; split; [reflexivity | discriminate]].
Defined.

(** C10. The pad is computed from the length the caller claims, [bufLen],
    not from the buffer: for [0 <= bufLen <= E <= MaxInt] the call succeeds,
    keeps the old content in front and makes the buffer exactly
    [E - bufLen] bytes longer, so the new length is [E] if and only if
    [bufLen] was the buffer's true length. *)
Theorem alignHOBLength_trusts_bufLen (E bufLen : Z) (buf : list byte) :
  0 <= bufLen <= E -> E <= MaxInt ->
  let out := snd (alignHOBLength E bufLen buf) in
  fst (alignHOBLength E bufLen buf) = Ok /\
  firstn (length buf) out = buf /\
  len out = len buf + (E - bufLen) /\
  (len out = E <-> bufLen = len buf).
Proof.
  intros Hb He. rewrite alignHOBLength_ok by assumption. cbn [fst snd].
  assert (len (buf ++ repeat Byte.x00 (Z.to_nat (E - bufLen)))
          = len buf + (E - bufLen)) as Hl.
  { rewrite len_app. unfold len at 2. rewrite repeat_length. lia. }
  split; [reflexivity|]. split.
  - rewrite firstn_app, Nat.sub_diag, firstn_all. cbn [firstn]. apply app_nil_r.
  - split; [exact Hl|]. rewrite Hl. lia.
Qed.

Lemma alignHOBLength_trusts_bufLen_witness :
  let buf := repeat Byte.x2a 10 in
  len (snd (alignHOBLength 16 4 buf)) = len buf + (16 - 4) /\
  len (snd (alignHOBLength 16 4 buf)) <> 16.
Proof.
  intro buf.
  destruct (alignHOBLength_trusts_bufLen 16 4 buf) as (_ & _ & Hlen & Hiff);
    [lia | vm_compute; discriminate |].
  split; [exact Hlen|].
  intro H. apply Hiff in H. vm_compute in H. discriminate H.
Defined.

(** A negative [bufLen] (the parameter is an [int]) is converted to a
    uint64 above [MaxInt] and ends in the first guard. *)
Lemma alignHOBLength_negative_bufLen (E bufLen : Z) (buf : list byte) :
  - 2 ^ 63 <= bufLen < 0 -> 0 <= E <= MaxInt ->
  alignHOBLength E bufLen buf = (Err ErrAlignPadRange, buf).
Proof.
  unfold MaxInt. intros Hb HE. unfold alignHOBLength.
  assert (uint64 bufLen = bufLen + 2 ^ 64) as ->.
  { unfold uint64. symmetry. apply (Z.mod_unique _ _ (-1)); lia. }
  destruct (Z.ltb_spec E (bufLen + 2 ^ 64)); [reflexivity | lia].
Qed.

(** ** constructTrampoline *)

Lemma Amd64_constructTrampoline_app (buf : list byte) (hobAddr entry : Z) :
  Amd64.constructTrampoline buf hobAddr entry
  = buf ++ Amd64.constructTrampoline [] hobAddr entry.
Proof.
  unfold Amd64.constructTrampoline, Amd64.appendUint64.
  cbn [app]. rewrite <- !app_assoc. reflexivity.
Qed.

Lemma Arm64_constructTrampoline_app (buf : list byte) (hobAddr entry : Z) :
  Arm64.constructTrampoline buf hobAddr entry
  = buf ++ Arm64.constructTrampoline [] hobAddr entry.
Proof.
  unfold Arm64.constructTrampoline, Arm64.appendUint32.
  cbn [app]. rewrite <- !app_assoc. reflexivity.
Qed.

Lemma le_split_uint32 (v : Z) : le_split 4 (uint32 v) = le_split 4 v.
Proof. symmetry. exact (le_split_mod v 4). Qed.

(** The two 32-bit halves written by the arm64 variant are the 64-bit
    little-endian encoding of the value. *)
Lemma le_split_halves (v : Z) :
  le_split 4 (uint32 (Z.land v 0xffffffff)) ++ le_split 4 (uint32 (Z.shiftr v 32))
  = le_split 8 v.
Proof.
  change 8%nat with (4 + 4)%nat. rewrite le_split_app.
  change (8 * Z.of_nat 4) with 32.
  rewrite !le_split_uint32.
  change 4294967295 with (Z.ones 32). rewrite Z.land_ones by lia.
  change (v mod 2 ^ 32) with (uint32 v). rewrite le_split_uint32.
  reflexivity.
Qed.

Lemma Amd64_stub (hobAddr entry : Z) :
  Amd64.constructTrampoline [] hobAddr entry
  = Amd64_code ++ le_split 8 (uint64 (hobAddr + tmpStackTop))
    ++ le_split 8 hobAddr ++ le_split 8 entry.
Proof.
  unfold Amd64.constructTrampoline, Amd64.appendUint64.
  cbn [app]. rewrite <- !app_assoc. reflexivity.
Qed.

Lemma Arm64_stub (hobAddr entry : Z) :
  Arm64.constructTrampoline [] hobAddr entry
  = Arm64_code ++ le_split 8 entry ++ le_split 8 hobAddr
    ++ le_split 8 (uint64 (hobAddr + tmpStackTop)).
Proof.
  unfold Arm64.constructTrampoline, Arm64.appendUint32, Arm64_code.
  cbn [app]. rewrite <- !le_split_halves, <- !app_assoc. reflexivity.
Qed.

Lemma uint64_idem (z : Z) : uint64 (uint64 z) = uint64 z.
Proof. unfold uint64. apply Z.mod_mod. lia. Qed.

(** Three 64-bit values after [n] bytes of code are read back at offsets
    [n], [n + 8] and [n + 16]. *)
Lemma Uint64_immediates (code : list byte) (n : nat) (x y z : Z) :
  length code = n ->
  let s := code ++ le_split 8 x ++ le_split 8 y ++ le_split 8 z in
  length s = (n + 24)%nat /\
  Uint64 (skipn n s) = Some (uint64 x) /\
  Uint64 (skipn (n + 8) s) = Some (uint64 y) /\
  Uint64 (skipn (n + 16) s) = Some (uint64 z).
Proof.
  intros Hn s. subst s. repeat split.
  - rewrite !length_app, !length_le_split. lia.
  - rewrite skipn_exact by exact Hn. apply Uint64_le_split.
  - rewrite (app_assoc code), skipn_exact
      by (rewrite length_app, length_le_split; lia).
    apply Uint64_le_split.
  - rewrite (app_assoc code), (app_assoc (code ++ _)), skipn_exact
      by (rewrite !length_app, !length_le_split; lia).
    rewrite <- (app_nil_r (le_split 8 z)). apply Uint64_le_split.
Qed.

(** C7. For every buffer, hand-off-block address and entry address (both
    uint64): the bytes appended do not depend on the buffer they are
    appended to; the amd64 variant appends 56 bytes holding, as
    little-endian 64-bit values, the stack top at offset 32, the
    hand-off-block address at 40 and the entry at 48; the arm64 variant
    appends 48 bytes holding the entry at offset 24, the hand-off-block
    address at 32 and the stack top at 40; the stack top is
    [hobAddr + tmpStackTop] in uint64 arithmetic. *)
Theorem constructTrampoline_spec (buf buf' : list byte) (hobAddr entry : Z) :
  0 <= hobAddr < 2 ^ 64 -> 0 <= entry < 2 ^ 64 ->
  let amd64 := Amd64.constructTrampoline buf hobAddr entry in
  let arm64 := Arm64.constructTrampoline buf hobAddr entry in
  let stackTop := uint64 (hobAddr + tmpStackTop) in
  (firstn (length buf) amd64 = buf /\
   stub amd64 buf = stub (Amd64.constructTrampoline buf' hobAddr entry) buf' /\
   length (stub amd64 buf) = 56%nat /\
   Uint64 (skipn 32 (stub amd64 buf)) = Some stackTop /\
   Uint64 (skipn 40 (stub amd64 buf)) = Some hobAddr /\
   Uint64 (skipn 48 (stub amd64 buf)) = Some entry) /\
  (firstn (length buf) arm64 = buf /\
   stub arm64 buf = stub (Arm64.constructTrampoline buf' hobAddr entry) buf' /\
   length (stub arm64 buf) = 48%nat /\
   Uint64 (skipn 24 (stub arm64 buf)) = Some entry /\
   Uint64 (skipn 32 (stub arm64 buf)) = Some hobAddr /\
   Uint64 (skipn 40 (stub arm64 buf)) = Some stackTop).
Proof.
  intros Hh He amd64 arm64 stackTop. subst amd64 arm64 stackTop.
  unfold stub. split.
  - rewrite (Amd64_constructTrampoline_app buf), (Amd64_constructTrampoline_app buf').
    rewrite !skipn_exact, firstn_exact by reflexivity.
    rewrite Amd64_stub.
    destruct (Uint64_immediates Amd64_code 32 (uint64 (hobAddr + tmpStackTop))
                hobAddr entry eq_refl) as (Hl & H1 & H2 & H3).
    rewrite uint64_idem in H1. rewrite (uint64_small hobAddr) in H2 by assumption.
    rewrite (uint64_small entry) in H3 by assumption.
    split; [reflexivity|]. split; [reflexivity|]. split; [exact Hl|].
    split; [exact H1|]. split; [exact H2 | exact H3].
  - rewrite (Arm64_constructTrampoline_app buf), (Arm64_constructTrampoline_app buf').
    rewrite !skipn_exact, firstn_exact by reflexivity.
    rewrite Arm64_stub.
    destruct (Uint64_immediates Arm64_code 24 entry hobAddr
                (uint64 (hobAddr + tmpStackTop)) eq_refl) as (Hl & H1 & H2 & H3).
    rewrite uint64_idem in H3. rewrite (uint64_small entry) in H1 by assumption.
    rewrite (uint64_small hobAddr) in H2 by assumption.
    split; [reflexivity|]. split; [reflexivity|]. split; [exact Hl|].
    split; [exact H1|]. split; [exact H2 | exact H3].
Qed.

Lemma constructTrampoline_spec_witness :
  let amd64 := Amd64.constructTrampoline [Byte.x90] 0x1000 0x805ac3 in
  let arm64 := Arm64.constructTrampoline [Byte.x90] 0x1000 0x805ac3 in
  (length (stub amd64 [Byte.x90]) = 56%nat /\
   Uint64 (skipn 32 (stub amd64 [Byte.x90])) = Some 0x3000) /\
  (length (stub arm64 [Byte.x90]) = 48%nat /\
   Uint64 (skipn 24 (stub arm64 [Byte.x90])) = Some 0x805ac3).
Proof.
  intros amd64 arm64.
  destruct (constructTrampoline_spec [Byte.x90] [] 0x1000 0x805ac3)
    as ((_ & _ & Hl & Hs & _) & (_ & _ & Hl' & He & _)); [lia | lia |].
  split; split; assumption.
Defined.

(** ** getFdtInfo *)

Section GetFdtInfoProperties.

Context {dt : DeviceTree}.

(** C8. Whatever the blob: the call returns either a result and no error
    or an error and no result.  When the tree read from the blob has the
    node [images], in it the node [tianocore], and in that the properties
    [load], [entry-start] (decoding as 64-bit values) and [data-offset],
    [data-size] (decoding as 32-bit values), the result carries exactly
    the four decoded values.  When one of the two nodes or of the four
    properties is not found, what comes before it being in place, the
    error is the not-found error of that node or property and there is no
    result. *)
Theorem getFdtInfo_spec (name : string) (dtb : option ReaderAt) :
  ((exists v, getFdtInfo name dtb = (Some v, None)) \/
   (exists e, getFdtInfo name dtb = (None, Some e))) /\
  forall fdt, readFdt name dtb = Some fdt ->
  (FDT_NodeByName fdt FirstLevelNodeName = None ->
   getFdtInfo name dtb = (None, Some ErrNodeImagesNotFound)) /\
  forall images, FDT_NodeByName fdt FirstLevelNodeName = Some images ->
  (Node_NodeByName images SecondLevelNodeName = None ->
   getFdtInfo name dtb = (None, Some ErrNodeTianocoreNotFound)) /\
  forall tianocore, Node_NodeByName images SecondLevelNodeName = Some tianocore ->
  (LookProperty tianocore LoadAddrPropertyName = None ->
   getFdtInfo name dtb = (None, Some ErrNodeLoadNotFound)) /\
  forall loadProp load,
    LookProperty tianocore LoadAddrPropertyName = Some loadProp ->
    AsU64 loadProp = Some load ->
  (LookProperty tianocore EntryAddrPropertyName = None ->
   getFdtInfo name dtb = (None, Some ErrNodeEntryStartNotFound)) /\
  forall entryProp entry,
    LookProperty tianocore EntryAddrPropertyName = Some entryProp ->
    AsU64 entryProp = Some entry ->
  (LookProperty tianocore DataOffsetPropertyName = None ->
   getFdtInfo name dtb = (None, Some ErrNodeDataOffsetNotFound)) /\
  forall offsetProp offset,
    LookProperty tianocore DataOffsetPropertyName = Some offsetProp ->
    AsU32 offsetProp = Some offset ->
  (LookProperty tianocore DataSizePropertyName = None ->
   getFdtInfo name dtb = (None, Some ErrNodeDataSizeNotFound)) /\
  forall sizeProp size,
    LookProperty tianocore DataSizePropertyName = Some sizeProp ->
    AsU32 sizeProp = Some size ->
  getFdtInfo name dtb
  = (Some {| Load := load; EntryStart := entry;
             DataOffset := offset; DataSize := size |}, None).
Proof.
  split.
  - unfold getFdtInfo.
    repeat match goal with
           | |- context [match ?x with Some _ => _ | None => _ end] =>
               destruct x
           end; eauto.
  - unfold getFdtInfo. intros fdt ->.
    split; [intros ->; reflexivity|]. intros images ->.
    split; [intros ->; reflexivity|]. intros tianocore ->.
    split; [intros ->; reflexivity|]. intros loadProp load -> ->.
    split; [intros ->; reflexivity|]. intros entryProp entry -> ->.
    split; [intros ->; reflexivity|]. intros offsetProp offset -> ->.
    split; [intros ->; reflexivity|]. intros sizeProp size -> ->.
    reflexivity.
Qed.

End GetFdtInfoProperties.

(** The big-endian decoding of the tree model reads back what was
    encoded. *)
Lemma asUint_be_split (n : nat) (v : Z) :
  asUint n (be_split n v) = Some (v mod 2 ^ (Z.of_nat n * 8)).
Proof.
  unfold asUint, be_split, be_combine.
  rewrite length_rev, length_le_split, Nat.eqb_refl, rev_involutive.
  now rewrite le_combine_split.
Qed.

Lemma getFdtInfo_spec_witness :
  @getFdtInfo (treeDT noFiles) "" (Some exampleFdt)
  = (Some {| Load := 0x800000; EntryStart := 0x805ac3;
             DataOffset := 0x1000; DataSize := 0x10000 |}, None)
  /\ @getFdtInfo (treeDT noFiles) "" (Some (mkNode "" [] []))
     = (None, Some ErrNodeImagesNotFound).
Proof.
  split.
  - refine (proj2 (proj2 (proj2 (proj2 (proj2 (proj2 (proj2
      (@getFdtInfo_spec (treeDT noFiles) "" (Some exampleFdt))
      exampleFdt eq_refl) (mkNode "images" [] [exampleTianocore]) eq_refl)
      exampleTianocore eq_refl)
      (be_split 8 0x800000) 0x800000 eq_refl eq_refl)
      (be_split 8 0x805ac3) 0x805ac3 eq_refl eq_refl)
      (be_split 4 0x1000) 0x1000 eq_refl eq_refl)
      (be_split 4 0x10000) 0x10000 eq_refl eq_refl).
  - exact (proj1 (proj2 (@getFdtInfo_spec (treeDT noFiles) "" (Some (mkNode "" [] [])))
                    (mkNode "" [] []) eq_refl) eq_refl).
Defined.

(** ** relocatePE: the entry loop *)

(** [binary.Read] of a [uint16], as inlined in [relocateEntries]. *)
Lemma binary_Read_2 (r : list byte) :
  binary_Read 2 r
  = match r with
    | b0 :: b1 :: r' => ReadOk (le_combine [b0; b1]) r'
    | [] => EOF
    | [_] => ErrUnexpectedEOF
    end.
Proof. destruct r as [|b0 [|b1 r']]; reflexivity. Qed.

Lemma list_pair_ind {A : Type} (P : list A -> Prop) :
  P [] -> (forall a, P [a]) -> (forall a b l, P l -> P (a :: b :: l)) ->
  forall l, P l.
Proof.
  intros H0 H1 H2.
  assert (forall l, P l /\ forall a, P (a :: l)) as H.
  { induction l as [|b l [IHl IHl']].
    - split; [exact H0 | exact H1].
    - split; [apply IHl' | intro a; apply H2; exact IHl]. }
  intro l. apply H.
Qed.

Lemma relocateDIR64_cases (pageRVA entryOffset delta : Z) (data : list byte) :
  (exists data', relocateDIR64 pageRVA entryOffset delta data = (Ok, data')
                 /\ length data' = length data) \/
  relocateDIR64 pageRVA entryOffset delta data = (Err ErrPeRelocOutOfBound, data) \/
  relocateDIR64 pageRVA entryOffset delta data = (Panic, data).
Proof.
  unfold relocateDIR64, Uint64, PutUint64.
  destruct (_ >=? _); [right; left; reflexivity|].
  destruct (8 <=? _)%nat eqn:H8; [|right; right; reflexivity].
  left. eexists. split; [reflexivity|].
  apply Nat.leb_le in H8. rewrite length_skipn in H8.
  rewrite !length_app, length_firstn, length_le_split, !length_skipn. lia.
Qed.

Lemma relocateEntry_cases (pageRVA delta entry : Z) (data : list byte) :
  (exists data', relocateEntry pageRVA delta entry data = (Ok, data')
                 /\ length data' = length data) \/
  relocateEntry pageRVA delta entry data = (Err ErrPeRelocOutOfBound, data) \/
  relocateEntry pageRVA delta entry data = (Panic, data).
Proof.
  unfold relocateEntry. destruct (_ =? _).
  - apply relocateDIR64_cases.
  - left. exists data. split; reflexivity.
Qed.

Lemma relocateEntries_done (r : list byte) (i n p d : Z) (data : list byte) :
  n <= i -> relocateEntries r i n p d data = Done r data.
Proof.
  intro H. destruct r; cbn [relocateEntries];
    destruct (Z.ltb_spec i n); try lia; reflexivity.
Qed.

Lemma relocateEntries_step (b0 b1 : byte) (r : list byte) (i n p d : Z)
  (data : list byte) :
  i < n ->
  relocateEntries (b0 :: b1 :: r) i n p d data
  = match relocateEntry p d (le_combine [b0; b1]) data with
    | (Ok, data') => relocateEntries r (i + 1) n p d data'
    | (res, data') => Stop res data'
    end.
Proof.
  intro H. cbn [relocateEntries].
  destruct (Z.ltb_spec i n); [reflexivity | lia].
Qed.

Lemma relocateEntries_eof (r : list byte) (i n p d : Z) (data : list byte) :
  i < n -> (length r < 2)%nat ->
  relocateEntries r i n p d data = Stop (Err ErrPeFailToGetEntry) data.
Proof.
  intros H Hr. destruct r as [|b0 [|b1 r]]; cbn [relocateEntries];
    destruct (Z.ltb_spec i n); try lia; try reflexivity.
  cbn [length] in Hr. lia.
Qed.

(** A loop that ends normally has read exactly the entries of the block:
    [2 * (n - i)] bytes. *)
Lemma relocateEntries_Done_inv (r : list byte) :
  forall i n p d data r' data',
    relocateEntries r i n p d data = Done r' data' ->
    exists ents, r = ents ++ r' /\ len ents = 2 * Z.max 0 (n - i)
                 /\ length data' = length data.
Proof.
  induction r as [| b0 | b0 b1 r IH] using list_pair_ind;
    intros i n p d data r' data' H.
  1, 2: destruct (Z.lt_ge_cases i n) as [Hlt|Hge];
    [ rewrite relocateEntries_eof in H by (cbn [length]; lia); discriminate
    | rewrite relocateEntries_done in H by lia; inversion H; subst;
      exists []; repeat split; unfold len; cbn [length]; lia ].
  destruct (Z.lt_ge_cases i n) as [Hlt|Hge].
  - rewrite relocateEntries_step in H by lia.
    destruct (relocateEntry_cases p d (le_combine [b0; b1]) data)
      as [(d1 & Heq & Hl) | [Heq | Heq]]; rewrite Heq in H; try discriminate.
    apply IH in H. destruct H as (ents & -> & Hlen & Hl').
    exists (b0 :: b1 :: ents). repeat split; [|congruence].
    unfold len in *. cbn [length]. lia.
  - rewrite relocateEntries_done in H by lia. inversion H; subst.
    exists []. repeat split. unfold len. cbn [length]. lia.
Qed.

(** The loop ends in [Done], in the failure to read an entry, or in the
    failure of a fixup; the image keeps its length. *)
Lemma relocateEntries_Stop_inv (r : list byte) :
  forall i n p d data res data',
    relocateEntries r i n p d data = Stop res data' ->
    unless_fixup_fails res (Err ErrPeFailToGetEntry) /\ length data' = length data.
Proof.
  induction r as [| b0 | b0 b1 r IH] using list_pair_ind;
    intros i n p d data res data' H.
  1, 2: destruct (Z.lt_ge_cases i n) as [Hlt|Hge];
    [ rewrite relocateEntries_eof in H by (cbn [length]; lia);
      inversion H; subst; split; [left|]; reflexivity
    | rewrite relocateEntries_done in H by lia; discriminate ].
  destruct (Z.lt_ge_cases i n) as [Hlt|Hge].
  - rewrite relocateEntries_step in H by lia.
    destruct (relocateEntry_cases p d (le_combine [b0; b1]) data)
      as [(d1 & Heq & Hl) | [Heq | Heq]]; rewrite Heq in H.
    + apply IH in H. destruct H as [H1 H2]. split; [exact H1 | congruence].
    + inversion H; subst. split; [right; left|]; reflexivity.
    + inversion H; subst. split; [right; right|]; reflexivity.
  - rewrite relocateEntries_done in H by lia. discriminate.
Qed.

(** Bytes after the entries of the block do not change a loop that ends
    normally or in the failure of a fixup. *)
Lemma relocateEntries_app (r t : list byte) :
  forall i n p d data,
    match relocateEntries r i n p d data with
    | Done r' data' => relocateEntries (r ++ t) i n p d data = Done (r' ++ t) data'
    | Stop (Err ErrPeFailToGetEntry) _ => True
    | Stop res data' => relocateEntries (r ++ t) i n p d data = Stop res data'
    end.
Proof.
  induction r as [| b0 | b0 b1 r IH] using list_pair_ind; intros i n p d data.
  1, 2: destruct (Z.lt_ge_cases i n) as [Hlt|Hge];
    [ rewrite relocateEntries_eof by (cbn [length]; lia); exact I
    | rewrite !relocateEntries_done by lia; reflexivity ].
  destruct (Z.lt_ge_cases i n) as [Hlt|Hge].
  - cbn [app]. rewrite !relocateEntries_step by lia.
    destruct (relocateEntry_cases p d (le_combine [b0; b1]) data)
      as [(d1 & -> & Hl) | [-> | ->]]; [apply IH | reflexivity | reflexivity].
  - rewrite !relocateEntries_done by lia. reflexivity.
Qed.

(** With fewer bytes left than the block has entries to read, the loop
    fails. *)
Lemma relocateEntries_short (r : list byte) :
  forall i n p d data,
    len r < 2 * (n - i) ->
    exists res data',
      relocateEntries r i n p d data = Stop res data'
      /\ unless_fixup_fails res (Err ErrPeFailToGetEntry).
Proof.
  induction r as [| b0 | b0 b1 r IH] using list_pair_ind;
    intros i n p d data H; unfold len in H; cbn [length] in H.
  1, 2: rewrite relocateEntries_eof by (cbn [length]; lia);
    eexists; eexists; split; [reflexivity | left; reflexivity].
  rewrite relocateEntries_step by lia.
  destruct (relocateEntry_cases p d (le_combine [b0; b1]) data)
    as [(d1 & -> & Hl) | [-> | ->]].
  - apply IH. unfold len. lia.
  - eexists; eexists; split; [reflexivity | right; left; reflexivity].
  - eexists; eexists; split; [reflexivity | right; right; reflexivity].
Qed.

(** ** relocatePE: the loop over blocks *)

Lemma binary_Read_short (n : nat) (r : list byte) :
  (0 < length r < n)%nat -> binary_Read n r = ErrUnexpectedEOF.
Proof.
  intro H. destruct r as [|b r]; [cbn [length] in H; lia|].
  unfold binary_Read. destruct (Nat.leb_spec n (length (b :: r))); [lia | reflexivity].
Qed.

Lemma binary_Read_ok (n : nat) (r : list byte) :
  (0 < n <= length r)%nat ->
  binary_Read n r = ReadOk (le_combine (firstn n r)) (skipn n r).
Proof.
  intro H. destruct r as [|b r]; [cbn [length] in H; lia|].
  unfold binary_Read. destruct (Nat.leb_spec n (length (b :: r))); [reflexivity | lia].
Qed.

Lemma binary_Read_rest (n : nat) (r : list byte) (v : Z) (r' : list byte) :
  binary_Read n r = ReadOk v r' -> r' = skipn n r /\ (n <= length r)%nat.
Proof.
  destruct r as [|b r]; [discriminate|]. unfold binary_Read.
  destruct (Nat.leb_spec n (length (b :: r))); [|discriminate].
  intro Heq. inversion Heq. split; [reflexivity | assumption].
Qed.

(** The fuel of [relocatePE] is enough: with more rounds than the stream
    has bytes the walk ends, and in the same way whatever the fuel. *)
Lemma relocateBlocks_total (fuel : nat) :
  forall r delta data,
    (length r < fuel)%nat ->
    exists res, forall fuel',
        (length r < fuel')%nat -> relocateBlocks fuel' r delta data = Some res.
Proof.
  induction fuel as [|fuel IH]; intros r delta data Hf; [lia|].
  destruct (binary_Read 4 r) as [pageRVA r1| |] eqn:H1.
  2: { exists (Ok, data). intros [|f'] Hf'; [lia|].
       cbn [relocateBlocks]. now rewrite H1. }
  2: { exists (Err ErrPeFailToGetPageRVA, data). intros [|f'] Hf'; [lia|].
       cbn [relocateBlocks]. now rewrite H1. }
  destruct (binary_Read 4 r1) as [blockSize r2| |] eqn:H2.
  2, 3: exists (Err ErrPeFailToGetBlockSize, data); intros [|f'] Hf'; [lia|];
    cbn [relocateBlocks]; now rewrite H1, H2.
  destruct (relocateEntries r2 0 (uint32 (blockSize - 8) / 2) pageRVA delta data)
    as [r3 data'|res data'] eqn:H3.
  - apply binary_Read_rest in H1 as H1'. apply binary_Read_rest in H2 as H2'.
    destruct H1' as [-> L1]. destruct H2' as [-> L2].
    apply relocateEntries_Done_inv in H3 as H3'.
    destruct H3' as (ents & Hr2 & _ & _).
    assert (length r3 + 8 <= length r)%nat as L3.
    { apply (f_equal (@length byte)) in Hr2.
      rewrite length_app, !length_skipn in Hr2. rewrite length_skipn in L2. lia. }
    destruct (IH r3 delta data') as (res & Hres); [lia|].
    exists res. intros [|f'] Hf'; [lia|].
    cbn [relocateBlocks]. rewrite H1, H2, H3. apply Hres. lia.
  - exists (res, data'). intros [|f'] Hf'; [lia|].
    cbn [relocateBlocks]. now rewrite H1, H2, H3.
Qed.

Lemma relocatePE_fuel (fuel : nat) (r : list byte) (delta : Z) (data : list byte) :
  (length r < fuel)%nat ->
  relocateBlocks fuel r delta data = Some (relocatePE r delta data).
Proof.
  intro Hf.
  destruct (relocateBlocks_total (S (length r)) r delta data) as (res & Hres); [lia|].
  unfold relocatePE. rewrite (Hres (S (length r))) by lia. apply Hres. exact Hf.
Qed.

(** One round of the loop of [relocatePE], without fuel. *)
Lemma relocatePE_eq (r : list byte) (delta : Z) (data : list byte) :
  relocatePE r delta data
  = match binary_Read 4 r with
    | EOF => (Ok, data)
    | ErrUnexpectedEOF => (Err ErrPeFailToGetPageRVA, data)
    | ReadOk pageRVA r1 =>
        match binary_Read 4 r1 with
        | ReadOk blockSize r2 =>
            match relocateEntries r2 0 (uint32 (blockSize - 8) / 2) pageRVA delta data with
            | Done r3 data' => relocatePE r3 delta data'
            | Stop res data' => (res, data')
            end
        | _ => (Err ErrPeFailToGetBlockSize, data)
        end
    end.
Proof.
  pose proof (relocatePE_fuel (S (length r)) r delta data (Nat.lt_succ_diag_r _)) as H.
  cbn [relocateBlocks] in H.
  destruct (binary_Read 4 r) as [pageRVA r1| |] eqn:H1; try congruence.
  destruct (binary_Read 4 r1) as [blockSize r2| |] eqn:H2; try congruence.
  destruct (relocateEntries r2 0 (uint32 (blockSize - 8) / 2) pageRVA delta data)
    as [r3 data'|res data'] eqn:H3; try congruence.
  apply binary_Read_rest in H1. apply binary_Read_rest in H2.
  destruct H1 as [-> L1]. destruct H2 as [-> L2].
  apply relocateEntries_Done_inv in H3. destruct H3 as (ents & Hr2 & _ & _).
  assert (length r3 < length r)%nat as L3.
  { apply (f_equal (@length byte)) in Hr2.
    rewrite length_app, !length_skipn in Hr2. rewrite length_skipn in L2. lia. }
  rewrite (relocatePE_fuel _ r3 delta data' L3) in H. congruence.
Qed.

(** ** relocatePE: framing of the stream *)

Lemma entryCount_nonneg (blockSize : Z) : 0 <= entryCount blockSize.
Proof.
  unfold entryCount, uint32. apply Z.div_pos; [|lia].
  apply Z.mod_pos_bound. lia.
Qed.

Lemma relocatePE_nil (delta : Z) (data : list byte) :
  relocatePE [] delta data = (Ok, data).
Proof. reflexivity. Qed.

Lemma relocatePE_short_pageRVA (r : list byte) (delta : Z) (data : list byte) :
  (0 < length r < 4)%nat ->
  relocatePE r delta data = (Err ErrPeFailToGetPageRVA, data).
Proof. intro H. now rewrite relocatePE_eq, binary_Read_short. Qed.

Lemma relocatePE_short_blockSize (r : list byte) (delta : Z) (data : list byte) :
  (4 <= length r < 8)%nat ->
  relocatePE r delta data = (Err ErrPeFailToGetBlockSize, data).
Proof.
  intro H. rewrite relocatePE_eq, binary_Read_ok by lia.
  destruct (Nat.eq_dec (length r) 4) as [E|E].
  - rewrite <- E, skipn_all. reflexivity.
  - rewrite binary_Read_short by (rewrite length_skipn; lia). reflexivity.
Qed.

(** After a whole header the walker runs the entry loop of the block on
    what follows. *)
Lemma relocatePE_header (hdr r2 : list byte) (delta : Z) (data : list byte) :
  length hdr = 8%nat ->
  relocatePE (hdr ++ r2) delta data
  = match relocateEntries r2 0 (entryCount (blockSizeOf hdr)) (pageRVAOf hdr) delta data with
    | Done r3 data' => relocatePE r3 delta data'
    | Stop res data' => (res, data')
    end.
Proof.
  intro H. rewrite relocatePE_eq.
  rewrite binary_Read_ok by (rewrite length_app; lia).
  rewrite firstn_app_le, skipn_app_le by lia.
  assert (length (skipn 4 hdr) = 4%nat) as H4 by (rewrite length_skipn; lia).
  rewrite binary_Read_ok by (rewrite length_app; lia).
  rewrite firstn_exact_prefix, skipn_exact by exact H4. reflexivity.
Qed.

(** With all the entries of the block in the stream, the loop does not
    fail to read one. *)
Lemma relocateEntries_enough (r : list byte) :
  forall i n p d data data',
    2 * (n - i) <= len r ->
    relocateEntries r i n p d data <> Stop (Err ErrPeFailToGetEntry) data'.
Proof.
  induction r as [| b0 | b0 b1 r IH] using list_pair_ind;
    intros i n p d data data' H; unfold len in H; cbn [length] in H.
  1, 2: rewrite relocateEntries_done by lia; discriminate.
  destruct (Z.lt_ge_cases i n) as [Hlt|Hge].
  - rewrite relocateEntries_step by lia.
    destruct (relocateEntry_cases p d (le_combine [b0; b1]) data)
      as [(d1 & -> & Hl) | [-> | ->]]; try discriminate.
    apply IH. unfold len. lia.
  - rewrite relocateEntries_done by lia. discriminate.
Qed.

(** The entry loop of a block whose entries [ents] are all in the stream:
    whatever follows them, it ends normally with what follows, or a fixup
    fails. *)
Lemma relocateEntries_block (ents : list byte) (n p d : Z) (data : list byte) :
  len ents = 2 * n ->
  (exists data', forall t, relocateEntries (ents ++ t) 0 n p d data = Done t data') \/
  (exists res data',
      (res = Err ErrPeRelocOutOfBound \/ res = Panic) /\
      forall t, relocateEntries (ents ++ t) 0 n p d data = Stop res data').
Proof.
  intro Hlen.
  pose proof (fun t => relocateEntries_app ents t 0 n p d data) as Happ.
  destruct (relocateEntries ents 0 n p d data) as [r' data'|res data'] eqn:He.
  - left. apply relocateEntries_Done_inv in He.
    destruct He as (e & Hr & He & Hl).
    assert (r' = []) as ->.
    { apply (f_equal len) in Hr. rewrite len_app in Hr.
      pose proof (len_nonneg r'). pose proof (len_nonneg ents).
      destruct r'; [reflexivity|]. unfold len in *. cbn [length] in *. lia. }
    exists data'. exact Happ.
  - right. exists res, data'.
    pose proof (relocateEntries_Stop_inv _ _ _ _ _ _ _ _ He) as [[-> | [-> | ->]] _].
    + exfalso. revert He. apply relocateEntries_enough. lia.
    + split; [left; reflexivity | exact Happ].
    + split; [right; reflexivity | exact Happ].
Qed.

(** On a stream [pre] of whole blocks, whatever follows it: the walker
    gets through [pre], leaving an image [d1], and goes on with what
    follows; or a fixup fails inside [pre]. *)
Lemma relocatePE_framed_app (pre : list byte) :
  framed pre ->
  forall delta data,
    (exists d1, forall rest,
        relocatePE (pre ++ rest) delta data = relocatePE rest delta d1) \/
    (exists res d1,
        (res = Err ErrPeRelocOutOfBound \/ res = Panic) /\
        forall rest, relocatePE (pre ++ rest) delta data = (res, d1)).
Proof.
  induction 1 as [|hdr ents pre Hh He Hf IH]; intros delta data.
  - left. exists data. reflexivity.
  - destruct (relocateEntries_block ents (entryCount (blockSizeOf hdr))
                (pageRVAOf hdr) delta data He)
      as [(data' & Hd) | (res & data' & Hres & Hs)].
    + destruct (IH delta data') as [(d1 & H1) | (res & d1 & Hres & H1)].
      * left. exists d1. intro rest.
        rewrite <- !app_assoc, relocatePE_header, Hd by exact Hh. apply H1.
      * right. exists res, d1. split; [exact Hres|]. intro rest.
        rewrite <- !app_assoc, relocatePE_header, Hd by exact Hh. apply H1.
    + right. exists res, data'. split; [exact Hres|]. intro rest.
      rewrite <- !app_assoc, relocatePE_header, Hs by exact Hh. reflexivity.
Qed.

(** A successful walk has read a stream of whole blocks. *)
Lemma relocatePE_Ok_framed (n : nat) :
  forall r delta data,
    (length r <= n)%nat -> fst (relocatePE r delta data) = Ok -> framed r.
Proof.
  induction n as [|n IH]; intros r delta data Hn Hok.
  - destruct r; [constructor | cbn [length] in Hn; lia].
  - destruct (Nat.lt_ge_cases (length r) 8) as [Hs|Hl].
    + destruct r as [|b r]; [constructor|]. exfalso.
      destruct (Nat.lt_ge_cases (length (b :: r)) 4).
      * rewrite relocatePE_short_pageRVA in Hok by (cbn [length] in *; lia).
        discriminate.
      * rewrite relocatePE_short_blockSize in Hok by lia. discriminate.
    + rewrite <- (firstn_skipn 8 r) in Hok |- *.
      assert (length (firstn 8 r) = 8%nat) as Hh by (rewrite length_firstn; lia).
      rewrite relocatePE_header in Hok by exact Hh.
      destruct (relocateEntries (skipn 8 r) 0 _ _ delta data)
        as [r3 data'|res data'] eqn:He.
      * apply relocateEntries_Done_inv in He.
        destruct He as (ents & Hr & Hlen & _). rewrite Hr.
        pose proof (entryCount_nonneg (blockSizeOf (firstn 8 r))).
        apply framed_block; [exact Hh | lia |].
        apply (IH r3 delta data'); [|exact Hok].
        apply (f_equal (@length byte)) in Hr.
        rewrite length_app, length_skipn in Hr. lia.
      * apply relocateEntries_Stop_inv in He. destruct He as [He _].
        cbn [fst] in Hok. subst res.
        destruct He as [He|[He|He]]; discriminate.
Qed.

(** ** relocatePE: a header of page RVA 0 and block size 0 *)

(** C2, counterexample: on the stream that holds nothing but the header
    of page RVA 0 and block size 0, the walk does not end successfully;
    it fails to read an entry. *)
Lemma zeroHeader_not_terminator :
  pageRVAOf zeroHeader = 0 /\ blockSizeOf zeroHeader = 0 /\
  relocatePE zeroHeader 0 [] = (Err ErrPeFailToGetEntry, []).
Proof. repeat split. Qed.

(** C2, as the code has it: a header of page RVA 0 and block size 0 is a
    block like any other, of [(0 - 8) mod 2^32 / 2 = 2147483644] entries;
    the walker goes on to read them, and with fewer bytes than that many
    entries after the header the walk ends in [ErrPeFailToGetEntry] (or in
    the failure of a fixup among the bytes read as entries), not in
    success. *)
Theorem zeroHeader_reads_entries (rest : list byte) (delta : Z) (data : list byte) :
  len rest < 2 * 2147483644 ->
  entryCount (blockSizeOf zeroHeader) = 2147483644 /\
  unless_fixup_fails (fst (relocatePE (zeroHeader ++ rest) delta data))
    (Err ErrPeFailToGetEntry).
Proof.
  intro H. split; [reflexivity|].
  rewrite relocatePE_header by reflexivity.
  destruct (relocateEntries_short rest 0 (entryCount (blockSizeOf zeroHeader))
              (pageRVAOf zeroHeader) delta data) as (res & d & -> & Hres).
  - change (entryCount (blockSizeOf zeroHeader)) with 2147483644. lia.
  - exact Hres.
Qed.

Lemma zeroHeader_reads_entries_witness :
  unless_fixup_fails
    (fst (relocatePE (zeroHeader ++ repeat Byte.x00 8) 1 (repeat Byte.x00 16)))
    (Err ErrPeFailToGetEntry).
Proof.
  apply (zeroHeader_reads_entries (repeat Byte.x00 8) 1 (repeat Byte.x00 16)).
  unfold len. cbn [length repeat]. lia.
Defined.

(** ** relocatePE: one DIR64 entry *)

Lemma relocAddr_range (pageRVA entryOffset : Z) :
  0 <= relocAddr pageRVA entryOffset < 2 ^ 32.
Proof. unfold relocAddr, uint32. apply Z.mod_pos_bound. lia. Qed.

(** At or after the end of the image: the error of the source. *)
Lemma relocateDIR64_out_of_bound (pageRVA entryOffset delta : Z) (data : list byte) :
  len data < 2 ^ 32 ->
  len data <= relocAddr pageRVA entryOffset ->
  relocateDIR64 pageRVA entryOffset delta data = (Err ErrPeRelocOutOfBound, data).
Proof.
  intros Hl Ha. unfold relocateDIR64. fold (relocAddr pageRVA entryOffset).
  rewrite (uint32_small (len data)) by (pose proof (len_nonneg data); lia).
  destruct (relocAddr pageRVA entryOffset >=? len data) eqn:E; [reflexivity|].
  rewrite Z.geb_leb in E. apply Z.leb_gt in E. lia.
Qed.


(** With 8 bytes or more from the address to the end of the image: the
    value there is replaced by itself plus [delta], in uint64. *)
Lemma relocateDIR64_in_bounds (pageRVA entryOffset delta : Z) (data : list byte) :
  len data < 2 ^ 32 ->
  relocAddr pageRVA entryOffset + 8 <= len data ->
  let addr := relocAddr pageRVA entryOffset in
  relocateDIR64 pageRVA entryOffset delta data
  = (Ok, putAt data addr (uint64 (valueAt data addr + delta))).
Proof.
  intros Hl Ha addr. subst addr. pose proof (relocAddr_range pageRVA entryOffset) as Hr.
  unfold relocateDIR64. fold (relocAddr pageRVA entryOffset).
  rewrite (uint32_small (len data)) by lia.
  destruct (relocAddr pageRVA entryOffset >=? len data) eqn:E.
  { rewrite Z.geb_leb in E. apply Z.leb_le in E. lia. }
  unfold Uint64, PutUint64. rewrite length_skipn.
  destruct (Nat.leb_spec 8 (length data - Z.to_nat (relocAddr pageRVA entryOffset)));
    [reflexivity | unfold len in *; lia].
Qed.

(** C1, where the code departs from the specification: a DIR64 entry of offset 0 in a
    page of RVA 0, on an image of 4 bytes.  [addr + 8 > len(data)], and
    the walk panics instead of returning [ErrPeRelocOutOfBound]. *)
Theorem relocatePE_DIR64_at_image_end :
  let relocData := le_split 4 0 ++ le_split 4 10 ++ le_split 2 0xA000 in
  let data := repeat Byte.x00 4 in
  relocAddr 0 0 + 8 > len data /\
  relocatePE relocData 1 data = (Panic, data).
Proof. split; reflexivity. Qed.

(** ** Reading and writing 64-bit values in an image *)

Lemma putAt_length (data : list byte) (addr v : Z) :
  0 <= addr -> addr + 8 <= len data ->
  length (putAt data addr v) = length data.
Proof.
  intros H0 H. unfold putAt, len in *.
  rewrite !length_app, length_firstn, length_le_split, !length_skipn. lia.
Qed.

Lemma nth_error_putAt (data : list byte) (addr v : Z) (k : nat) :
  0 <= addr -> addr + 8 <= len data ->
  ~ (addr <= Z.of_nat k < addr + 8) ->
  nth_error (putAt data addr v) k = nth_error data k.
Proof.
  intros H0 H Hk. unfold putAt, len in *.
  assert (length (firstn (Z.to_nat addr) data) = Z.to_nat addr) as Hf
      by (rewrite length_firstn; lia).
  destruct (Nat.lt_ge_cases k (Z.to_nat addr)) as [Hlt|Hge].
  - rewrite nth_error_app1 by lia. rewrite nth_error_firstn.
    destruct (Nat.ltb_spec k (Z.to_nat addr)); [reflexivity | lia].
  - rewrite nth_error_app2 by lia. rewrite Hf.
    rewrite nth_error_app2 by (rewrite length_le_split; lia).
    rewrite length_le_split, !nth_error_skipn. f_equal. lia.
Qed.

Lemma valueAt_putAt (data : list byte) (addr v : Z) :
  0 <= addr -> addr <= len data ->
  valueAt (putAt data addr v) addr = uint64 v.
Proof.
  intros H0 H. unfold valueAt, putAt, len in *.
  rewrite skipn_exact by (rewrite length_firstn; lia).
  rewrite firstn_exact by apply length_le_split.
  apply le_combine_split.
Qed.

Lemma valueAt_ext (d1 d2 : list byte) (addr : Z) :
  0 <= addr ->
  (forall k, addr <= Z.of_nat k < addr + 8 -> nth_error d1 k = nth_error d2 k) ->
  valueAt d1 addr = valueAt d2 addr.
Proof.
  intros H0 H. unfold valueAt. f_equal. apply nth_error_ext. intro i.
  rewrite !nth_error_firstn, !nth_error_skipn.
  destruct (Nat.ltb_spec i 8); [|reflexivity]. apply H. lia.
Qed.

(** Writing back the value that is there changes nothing. *)
Lemma putAt_valueAt (data : list byte) (addr : Z) :
  0 <= addr -> addr + 8 <= len data ->
  putAt data addr (uint64 (valueAt data addr + 0)) = data.
Proof.
  intros H0 H. unfold putAt, valueAt, len in *. rewrite Z.add_0_r.
  set (b := skipn (Z.to_nat addr) data).
  assert (length (firstn 8 b) = 8%nat) as H8.
  { subst b. rewrite length_firstn, length_skipn. lia. }
  rewrite uint64_small.
  - rewrite <- H8 at 1. rewrite split_le_combine.
    rewrite firstn_skipn. subst b. apply firstn_skipn.
  - pose proof (le_combine_bound (firstn 8 b)) as Hb. rewrite H8 in Hb. exact Hb.
Qed.

(** ** relocatePE: a block of entries at known offsets *)

Lemma inBounds_length (d1 d2 : list byte) (addr : Z) :
  length d1 = length d2 -> inBounds d1 addr -> inBounds d2 addr.
Proof. unfold inBounds, len. intros ->. exact (fun H => H). Qed.

Lemma applyFixups_length (delta : Z) (addrs : list Z) :
  forall data,
    Forall (inBounds data) addrs ->
    length (applyFixups delta addrs data) = length data.
Proof.
  induction addrs as [|a addrs IH]; intros data H; [reflexivity|].
  inversion H as [|? ? [Ha0 Ha] Hrest]; subst. cbn [applyFixups fold_left].
  fold (applyFixups delta addrs (putAt data a (uint64 (valueAt data a + delta)))).
  rewrite IH; [now apply putAt_length|].
  eapply Forall_impl; [|exact Hrest]. intro b.
  apply inBounds_length. symmetry. now apply putAt_length.
Qed.

Lemma applyFixups_frame (delta : Z) (addrs : list Z) :
  forall data k,
    Forall (inBounds data) addrs ->
    (forall a, In a addrs -> ~ (a <= Z.of_nat k < a + 8)) ->
    nth_error (applyFixups delta addrs data) k = nth_error data k.
Proof.
  induction addrs as [|a addrs IH]; intros data k H Hk; [reflexivity|].
  inversion H as [|? ? [Ha0 Ha] Hrest]; subst. cbn [applyFixups fold_left].
  fold (applyFixups delta addrs (putAt data a (uint64 (valueAt data a + delta)))).
  rewrite IH.
  - apply nth_error_putAt; [assumption..|]. apply Hk. now left.
  - eapply Forall_impl; [|exact Hrest]. intro b.
    apply inBounds_length. symmetry. now apply putAt_length.
  - intros b Hb. apply Hk. now right.
Qed.

Lemma applyFixups_values (delta : Z) (addrs : list Z) :
  forall data,
    Forall (inBounds data) addrs -> spaced addrs ->
    Forall (fun a => valueAt (applyFixups delta addrs data) a
                     = uint64 (valueAt data a + delta)) addrs.
Proof.
  induction addrs as [|a addrs IH]; intros data H Hs; [constructor|].
  inversion H as [|? ? [Ha0 Ha] Hrest]; subst. destruct Hs as [Hsa Hs].
  cbn [applyFixups fold_left].
  set (data1 := putAt data a (uint64 (valueAt data a + delta))).
  fold (applyFixups delta addrs data1).
  assert (length data1 = length data) as Hl by now apply putAt_length.
  assert (Forall (inBounds data1) addrs) as Hrest1.
  { eapply Forall_impl; [|exact Hrest]. intro b. apply inBounds_length. now symmetry. }
  rewrite Forall_forall in Hsa.
  constructor.
  - rewrite (valueAt_ext _ data1 a Ha0).
    2: { intros k Hk. apply applyFixups_frame; [assumption|].
         intros b Hb. specialize (Hsa b Hb). lia. }
    subst data1. rewrite valueAt_putAt by lia. apply uint64_idem.
  - specialize (IH data1 Hrest1 Hs). rewrite Forall_forall in IH |- *.
    intros b Hb. rewrite (IH b Hb). do 2 f_equal.
    rewrite Forall_forall in Hrest. destruct (Hrest b Hb) as [Hb0 _].
    apply valueAt_ext; [assumption|]. intros k Hk.
    apply nth_error_putAt; [assumption..|]. specialize (Hsa b Hb). lia.
Qed.

Lemma targets_cons (pageRVA e : Z) (es : list Z) :
  targets pageRVA (e :: es)
  = if isDIR64 e
    then relocAddr pageRVA (Z.land e 0xfff) :: targets pageRVA es
    else targets pageRVA es.
Proof. unfold targets. cbn [filter]. destruct (isDIR64 e); reflexivity. Qed.

Lemma targets_nonneg (pageRVA : Z) (es : list Z) :
  Forall (fun a => 0 <= a) (targets pageRVA es).
Proof.
  unfold targets. apply Forall_forall. intros a Ha.
  apply in_map_iff in Ha. destruct Ha as (e & <- & _).
  apply relocAddr_range.
Qed.

(** The entry loop on a block of entries whose DIR64 targets are in
    bounds: every entry is read, the fixups of the DIR64 entries are
    applied in order, and nothing else is done. *)
Lemma relocateEntries_encode (p D : Z) (t : list byte) (es : list Z) :
  forall i n data,
    Forall (fun e => 0 <= e < 2 ^ 16) es ->
    n - i = Z.of_nat (length es) ->
    len data < 2 ^ 32 ->
    Forall (inBounds data) (targets p es) ->
    relocateEntries (encodeEntries es ++ t) i n p D data
    = Done t (applyFixups D (targets p es) data).
Proof.
  induction es as [|e es IH]; intros i n data Hes Hn Hl Hb.
  - cbn [length] in Hn. apply relocateEntries_done. lia.
  - inversion Hes as [|? ? He Hes']; subst. cbn [length] in Hn.
    change (encodeEntries (e :: es))
      with ([byte.of_Z e; byte.of_Z (Z.shiftr e 8)] ++ encodeEntries es).
    cbn [app]. rewrite relocateEntries_step by lia.
    change [byte.of_Z e; byte.of_Z (Z.shiftr e 8)] with (le_split 2 e).
    rewrite le_combine_split.
    change (2 ^ (Z.of_nat 2 * 8)) with (2 ^ 16). rewrite (Z.mod_small e) by exact He.
    rewrite targets_cons in Hb |- *. unfold relocateEntry. fold (isDIR64 e).
    destruct (isDIR64 e).
    + inversion Hb as [|? ? [Ha0 Ha] Hb']; subst.
      rewrite relocateDIR64_in_bounds by assumption. cbv zeta.
      set (data1 := putAt data _ _).
      assert (length data1 = length data) as Hl1 by now apply putAt_length.
      rewrite IH; [reflexivity | assumption | lia | unfold len in *; lia |].
      eapply Forall_impl; [|exact Hb']. intro b. apply inBounds_length. now symmetry.
    + apply IH; [assumption | lia | assumption | assumption].
Qed.

(** C4, as the code has it. One block of page RVA [pageRVA] holding the
    16-bit entries [es], an image shorter than [2^32] bytes, every DIR64
    entry pointing to 8 bytes inside the image, no two of these 8-byte
    ranges overlapping: the walk succeeds, the image keeps its length,
    the value at the target of every DIR64 entry is the original one plus
    [D] modulo [2^64], and every byte outside the targets is as before
    (entries of any other type change nothing and stop nothing). *)
Theorem relocatePE_block_spec (pageRVA D : Z) (es : list Z) (data : list byte) :
  0 <= pageRVA < 2 ^ 32 ->
  Forall (fun e => 0 <= e < 2 ^ 16) es ->
  8 + 2 * Z.of_nat (length es) < 2 ^ 32 ->
  len data < 2 ^ 32 ->
  Forall (fun a => a + 8 <= len data) (targets pageRVA es) ->
  spaced (targets pageRVA es) ->
  exists data',
    relocatePE (block pageRVA es) D data = (Ok, data') /\
    length data' = length data /\
    Forall (fun a => valueAt data' a = uint64 (valueAt data a + D))
      (targets pageRVA es) /\
    (forall k : nat,
        (forall a, In a (targets pageRVA es) -> ~ (a <= Z.of_nat k < a + 8)) ->
        nth_error data' k = nth_error data k).
Proof.
  intros Hp Hes Hsz Hl Hb Hs.
  assert (Forall (inBounds data) (targets pageRVA es)) as Hin.
  { pose proof (targets_nonneg pageRVA es) as H0.
    rewrite Forall_forall in *. intros a Ha. split; [apply H0 | apply Hb]; exact Ha. }
  exists (applyFixups D (targets pageRVA es) data).
  split; [|split; [|split]].
  - unfold block. rewrite app_assoc.
    rewrite relocatePE_header by (rewrite length_app, !length_le_split; reflexivity).
    assert (pageRVAOf (le_split 4 pageRVA ++ le_split 4 (8 + 2 * Z.of_nat (length es)))
            = pageRVA) as ->.
    { unfold pageRVAOf. rewrite firstn_exact by apply length_le_split.
      rewrite le_combine_split. apply Z.mod_small. exact Hp. }
    assert (blockSizeOf (le_split 4 pageRVA ++ le_split 4 (8 + 2 * Z.of_nat (length es)))
            = 8 + 2 * Z.of_nat (length es)) as ->.
    { unfold blockSizeOf. rewrite skipn_exact by apply length_le_split.
      rewrite <- (length_le_split 4 (8 + 2 * Z.of_nat (length es))) at 1.
      rewrite firstn_all, le_combine_split. apply Z.mod_small. lia. }
    assert (entryCount (8 + 2 * Z.of_nat (length es)) = Z.of_nat (length es)) as ->.
    { unfold entryCount. rewrite uint32_small by lia.
      replace (8 + 2 * Z.of_nat (length es) - 8) with (Z.of_nat (length es) * 2) by lia.
      apply Z.div_mul. lia. }
    rewrite <- (app_nil_r (encodeEntries es)).
    rewrite relocateEntries_encode by (try assumption; lia).
    apply relocatePE_nil.
  - apply applyFixups_length. exact Hin.
  - apply applyFixups_values; assumption.
  - intros k Hk. apply applyFixups_frame; assumption.
Qed.

Lemma relocatePE_block_spec_witness :
  let es := [0xA000; 0x0008; 0x3010; 0xA010] in
  let data := le_split 8 0x140001000 ++ le_split 8 7 ++ le_split 8 (2 ^ 64 - 1) in
  exists data',
    relocatePE (block 0 es) 0x1000 data = (Ok, data') /\
    valueAt data' 0 = 0x140002000 /\
    nth_error data' 8 = Some Byte.x07 /\
    valueAt data' 16 = 0xfff.
Proof.
  intros es data.
  assert (targets 0 es = [0; 16]) as Ht by reflexivity.
  assert (len data = 24) as Hd by reflexivity.
  destruct (relocatePE_block_spec 0 0x1000 es data) as (data' & Hr & _ & Hv & Hk).
  - lia.
  - repeat constructor; lia.
  - change (length es) with 4%nat. lia.
  - rewrite Hd. lia.
  - rewrite Ht, Hd. repeat constructor; lia.
  - rewrite Ht. repeat constructor; lia.
  - exists data'. split; [exact Hr|].
    rewrite Ht in Hv, Hk.
    inversion Hv as [|? ? H0 Hv']; subst. inversion Hv' as [|? ? H16 _]; subst.
    split; [exact H0|]. split; [|exact H16].
    rewrite (Hk 8%nat); [reflexivity|].
    intros a [<- | [<- | []]]; cbn; lia.
Defined.

(** C4, counterexample: two DIR64 entries of offsets 0 and 4, both with
    their 8 bytes inside an image of 12 zero bytes, and delta 1.  The walk
    succeeds, and the value at offset 0 ends as [1 + 2^32], not as its
    original value plus 1. *)
Lemma relocatePE_overlapping_targets :
  let es := [0xA000; 0xA004] in
  let data := repeat Byte.x00 12 in
  let data' := snd (relocatePE (block 0 es) 1 data) in
  targets 0 es = [0; 4] /\
  Forall (fun a => a + 8 <= len data) (targets 0 es) /\
  fst (relocatePE (block 0 es) 1 data) = Ok /\
  valueAt data 0 = 0 /\
  valueAt data' 0 = 1 + 2 ^ 32 /\
  valueAt data' 0 <> uint64 (valueAt data 0 + 1).
Proof.
  cbv zeta. split; [reflexivity|]. split.
  { change (targets 0 [40960; 40964]) with [0; 4].
    change (len (repeat Byte.x00 12)) with 12. repeat constructor; lia. }
  split; [reflexivity|]. split; [reflexivity|]. split; [reflexivity|].
  discriminate.
Qed.

(** ** relocatePE with a delta of zero *)

Lemma relocateDIR64_delta0 (pageRVA entryOffset : Z) (data : list byte) :
  snd (relocateDIR64 pageRVA entryOffset 0 data) = data.
Proof.
  unfold relocateDIR64, Uint64, PutUint64.
  destruct (_ >=? _); [reflexivity|].
  set (a := Z.to_nat (uint32 (pageRVA + entryOffset))).
  set (b := skipn a data).
  destruct (Nat.leb_spec 8 (length b)) as [H8|H8]; [|reflexivity].
  cbn [snd]. rewrite Z.add_0_r.
  assert (length (firstn 8 b) = 8%nat) as Hf by (rewrite length_firstn; lia).
  rewrite uint64_small.
  - rewrite <- Hf at 1. rewrite split_le_combine, firstn_skipn.
    subst b. apply firstn_skipn.
  - pose proof (le_combine_bound (firstn 8 b)) as Hb. rewrite Hf in Hb. exact Hb.
Qed.

Lemma relocateEntry_delta0 (pageRVA entry : Z) (data : list byte) :
  snd (relocateEntry pageRVA 0 entry data) = data.
Proof.
  unfold relocateEntry. destruct (_ =? _); [apply relocateDIR64_delta0 | reflexivity].
Qed.

Lemma relocateEntries_delta0 (r : list byte) :
  forall i n p data,
    match relocateEntries r i n p 0 data with
    | Done _ data' => data' = data
    | Stop _ data' => data' = data
    end.
Proof.
  induction r as [| b0 | b0 b1 r IH] using list_pair_ind; intros i n p data.
  1, 2: destruct (Z.lt_ge_cases i n) as [Hlt|Hge];
    [ rewrite relocateEntries_eof by (cbn [length]; lia); reflexivity
    | rewrite relocateEntries_done by lia; reflexivity ].
  destruct (Z.lt_ge_cases i n) as [Hlt|Hge].
  - rewrite relocateEntries_step by lia.
    pose proof (relocateEntry_delta0 p (le_combine [b0; b1]) data) as H0.
    destruct (relocateEntry p 0 (le_combine [b0; b1]) data) as [res d1].
    cbn [snd] in H0. subst d1. destruct res; [apply IH | reflexivity | reflexivity].
  - rewrite relocateEntries_done by lia. reflexivity.
Qed.

Lemma relocateBlocks_delta0 (fuel : nat) :
  forall r data res,
    relocateBlocks fuel r 0 data = Some res -> snd res = data.
Proof.
  induction fuel as [|fuel IH]; intros r data res H; [discriminate|].
  cbn [relocateBlocks] in H.
  destruct (binary_Read 4 r) as [pageRVA r1| |];
    [|inversion H; reflexivity..].
  destruct (binary_Read 4 r1) as [blockSize r2| |];
    [|inversion H; reflexivity..].
  pose proof (relocateEntries_delta0 r2 0 (uint32 (blockSize - 8) / 2) pageRVA data) as H0.
  destruct (relocateEntries r2 0 (uint32 (blockSize - 8) / 2) pageRVA 0 data)
    as [r3 d1|res1 d1]; subst d1.
  - apply (IH r3). exact H.
  - inversion H. reflexivity.
Qed.

Lemma relocatePE_delta0 (relocData data : list byte) :
  snd (relocatePE relocData 0 data) = data.
Proof.
  apply (relocateBlocks_delta0 (S (length relocData)) relocData).
  apply relocatePE_fuel. lia.
Qed.

Lemma relocateSections_delta0 (sections : list pe_Section) :
  forall image, snd (relocateSections sections 0 image) = image.
Proof.
  induction sections as [|section sections IH]; intro image; [reflexivity|].
  cbn [relocateSections].
  destruct (String.eqb _ _); [|apply IH].
  destruct (sectionData section image) as [relocData|]; [|reflexivity].
  pose proof (relocatePE_delta0 relocData image) as H0.
  destruct (relocatePE relocData 0 image) as [res image'].
  cbn [snd] in H0. subst image'. destruct res; [apply IH | reflexivity | reflexivity].
Qed.

(** ** relocateFdtdata *)

(** Putting back the slice that was cut out gives the blob. *)
Lemma slice_restore (data : list byte) (lo hi : Z) :
  0 <= lo <= hi -> hi <= len data ->
  firstn (Z.to_nat lo) data ++ slice data lo hi ++ skipn (Z.to_nat hi) data = data.
Proof.
  intros H Hh. unfold slice, len in *.
  rewrite <- (firstn_skipn (Z.to_nat lo) data) at 4. f_equal.
  rewrite <- (firstn_skipn (Z.to_nat (hi - lo)) (skipn (Z.to_nat lo) data)) at 2.
  f_equal. rewrite skipn_skipn. f_equal. lia.
Qed.

(** A successful call went through every step of the function. *)
Lemma relocateFdtdata_Ok_inv (pe_NewFile : list byte -> option pe_File)
  (dst : Z) (fdtLoad fdtLoad' : FdtLoad) (data data' : list byte) :
  relocateFdtdata pe_NewFile dst fdtLoad data = (Ok, fdtLoad', data') ->
  let start := DataOffset fdtLoad in
  let end_ := uint32 (DataOffset fdtLoad + DataSize fdtLoad) in
  exists peFile preBase image',
    start <= end_ <= len data /\
    pe_NewFile (slice data start end_) = Some peFile /\
    OptionalHeader peFile = OptionalHeader64 preBase /\
    relocateSections (Sections peFile)
      (uint64 (uint64 (dst + start) - preBase)) (slice data start end_) = (Ok, image') /\
    data' = firstn (Z.to_nat start) data ++ image' ++ skipn (Z.to_nat end_) data /\
    fdtLoad' = {| Load := dst;
                  EntryStart := uint64 (dst + uint64 (EntryStart fdtLoad - Load fdtLoad));
                  DataOffset := DataOffset fdtLoad;
                  DataSize := DataSize fdtLoad |}.
Proof.
  cbv zeta. unfold relocateFdtdata.
  destruct (_ && _) eqn:Hb; [|discriminate].
  apply andb_prop in Hb. destruct Hb as [Hb1 Hb2].
  apply Z.leb_le in Hb1. apply Z.leb_le in Hb2.
  destruct (pe_NewFile _) as [peFile|] eqn:Hpe; [|discriminate].
  destruct (OptionalHeader peFile) as [| |preBase] eqn:Hoh; try discriminate.
  destruct (relocateSections _ _ _) as [res image'] eqn:Hrs.
  destruct res; try discriminate. intro H. inversion H; subst.
  exists peFile, preBase, image'. repeat split; try assumption; reflexivity.
Qed.

(** C3. After a successful call [Load] is [dst] and [EntryStart] is
    [dst + (EntryStart - Load)], in uint64 arithmetic, so that
    [EntryStart - Load] is the same before and after; the offset and size
    of the image are as before.  From [Load = 0x800000],
    [EntryStart = 0x805ac3] and [dst = 0x10000000] the call leaves
    [Load = 0x10000000] and [EntryStart = 0x10005ac3]. *)
Theorem relocateFdtdata_rebases (pe_NewFile : list byte -> option pe_File)
  (dst : Z) (fdtLoad fdtLoad' : FdtLoad) (data data' : list byte) :
  relocateFdtdata pe_NewFile dst fdtLoad data = (Ok, fdtLoad', data') ->
  EntryStart fdtLoad' = uint64 (dst + uint64 (EntryStart fdtLoad - Load fdtLoad)) /\
  Load fdtLoad' = dst /\
  uint64 (EntryStart fdtLoad' - Load fdtLoad')
  = uint64 (EntryStart fdtLoad - Load fdtLoad) /\
  DataOffset fdtLoad' = DataOffset fdtLoad /\
  DataSize fdtLoad' = DataSize fdtLoad /\
  (Load fdtLoad = 0x800000 -> EntryStart fdtLoad = 0x805ac3 -> dst = 0x10000000 ->
   Load fdtLoad' = 0x10000000 /\ EntryStart fdtLoad' = 0x10005ac3).
Proof.
  intro H. apply relocateFdtdata_Ok_inv in H.
  destruct H as (peFile & preBase & image' & _ & _ & _ & _ & _ & ->).
  cbn [Load EntryStart DataOffset DataSize].
  split; [reflexivity|]. split; [reflexivity|]. split.
  { unfold uint64. rewrite Zminus_mod_idemp_l.
    replace (dst + (EntryStart fdtLoad - Load fdtLoad) mod 2 ^ 64 - dst)
      with ((EntryStart fdtLoad - Load fdtLoad) mod 2 ^ 64) by lia.
    apply Z.mod_mod. lia. }
  split; [reflexivity|]. split; [reflexivity|].
  intros HL HE ->. rewrite HL, HE. split; reflexivity.
Qed.

Lemma relocateFdtdata_rebases_witness :
  let run := relocateFdtdata exampleNewFile 0x10000000 exampleFdtLoad exampleBlob in
  fst (fst run) = Ok /\
  Load (snd (fst run)) = 0x10000000 /\ EntryStart (snd (fst run)) = 0x10005ac3.
Proof.
  intro run.
  assert (run = (Ok, snd (fst run), snd run)) as Hrun by reflexivity.
  split; [reflexivity|].
  apply (relocateFdtdata_rebases exampleNewFile 0x10000000 exampleFdtLoad
           (snd (fst run)) exampleBlob (snd run) Hrun); reflexivity.
Defined.

(** C5, as the code has it.  After a successful call: with [dst] equal to
    the original [Load] (and [EntryStart] a uint64), [Load] and
    [EntryStart] are as before; and when the delta of the call,
    [dst + DataOffset - ImageBase] in uint64 arithmetic, is zero, every
    byte of the blob is as before.  The delta is taken from the image base
    in the header of the image, not from [Load]. *)
Theorem relocateFdtdata_noop (pe_NewFile : list byte -> option pe_File)
  (dst : Z) (fdtLoad fdtLoad' : FdtLoad) (data data' : list byte) :
  0 <= DataOffset fdtLoad ->
  relocateFdtdata pe_NewFile dst fdtLoad data = (Ok, fdtLoad', data') ->
  (dst = Load fdtLoad -> 0 <= EntryStart fdtLoad < 2 ^ 64 -> fdtLoad' = fdtLoad) /\
  (forall peFile preBase,
      pe_NewFile (slice data (DataOffset fdtLoad)
                    (uint32 (DataOffset fdtLoad + DataSize fdtLoad))) = Some peFile ->
      OptionalHeader peFile = OptionalHeader64 preBase ->
      uint64 (uint64 (dst + DataOffset fdtLoad) - preBase) = 0 ->
      data' = data).
Proof.
  intros Hoff H. apply relocateFdtdata_Ok_inv in H.
  destruct H as (peFile & preBase & image' & Hb & Hpe & Hoh & Hrs & -> & ->).
  split.
  - intros -> HE. destruct fdtLoad as [L E O S]. cbn [Load EntryStart DataOffset DataSize] in *.
    f_equal. unfold uint64. rewrite Zplus_mod_idemp_r.
    replace (L + (E - L)) with E by lia. apply Z.mod_small. exact HE.
  - intros peFile0 preBase0 Hpe0 Hoh0 Hd.
    rewrite Hpe in Hpe0. inversion Hpe0; subst peFile0.
    rewrite Hoh in Hoh0. inversion Hoh0; subst preBase0.
    rewrite Hd in Hrs.
    pose proof (relocateSections_delta0 (Sections peFile)
                  (slice data (DataOffset fdtLoad)
                     (uint32 (DataOffset fdtLoad + DataSize fdtLoad)))) as H0.
    rewrite Hrs in H0. cbn [snd] in H0. subst image'.
    apply slice_restore; lia.
Qed.

Lemma relocateFdtdata_noop_witness :
  let run := relocateFdtdata exampleNewFile 0x7ffff0 exampleFdtLoad exampleBlob in
  fst (fst run) = Ok /\ snd run = exampleBlob.
Proof.
  intro run.
  assert (run = (Ok, snd (fst run), snd run)) as Hrun by reflexivity.
  split; [reflexivity|].
  refine (proj2 (relocateFdtdata_noop exampleNewFile 0x7ffff0 exampleFdtLoad
                   (snd (fst run)) exampleBlob (snd run) _ Hrun)
            examplePeFile 0x800000 eq_refl eq_refl eq_refl).
  cbn. lia.
Defined.

(** C5, counterexample: [dst] is the original [Load], the call
    succeeds, [Load] and [EntryStart] are as before, and the 64-bit value
    the DIR64 entry points to has changed, from [0x800100] to [0x800110]:
    the delta is [dst + DataOffset - ImageBase = 16]. *)
Lemma relocateFdtdata_dst_eq_load_changes_image :
  let dst := Load exampleFdtLoad in
  let run := relocateFdtdata exampleNewFile dst exampleFdtLoad exampleBlob in
  fst (fst run) = Ok /\
  snd (fst run) = exampleFdtLoad /\
  valueAt exampleBlob 16 = 0x800100 /\
  valueAt (snd run) 16 = 0x800110 /\
  snd run <> exampleBlob.
Proof.
  cbv zeta. repeat split. discriminate.
Qed.

(** ** relocatePE: framing of the stream and fixups that fit *)











(** * Further properties *)

(** ** relocatePE: what every walk keeps *)

Lemma relocateBlocks_invariants (fuel : nat) :
  forall r delta data res data',
    relocateBlocks fuel r delta data = Some (res, data') ->
    length data' = length data /\
    (res = Ok \/ res = Err ErrPeFailToGetPageRVA \/ res = Err ErrPeFailToGetBlockSize \/
     res = Err ErrPeFailToGetEntry \/ res = Err ErrPeRelocOutOfBound \/ res = Panic).
Proof.
  induction fuel as [|fuel IH]; intros r delta data res data' H; [discriminate|].
  cbn [relocateBlocks] in H.
  destruct (binary_Read 4 r) as [pageRVA r1| |].
  2, 3: inversion H; subst; split; [reflexivity | tauto].
  destruct (binary_Read 4 r1) as [blockSize r2| |].
  2, 3: inversion H; subst; split; [reflexivity | tauto].
  destruct (relocateEntries r2 0 (uint32 (blockSize - 8) / 2) pageRVA delta data)
    as [r3 d1|res1 d1] eqn:He.
  - apply relocateEntries_Done_inv in He. destruct He as (_ & _ & _ & Hl).
    apply IH in H. destruct H as [Hl' Hres]. split; [congruence | exact Hres].
  - apply relocateEntries_Stop_inv in He. destruct He as [Hres Hl].
    inversion H; subst. split; [exact Hl|].
    destruct Hres as [-> | [-> | ->]]; tauto.
Qed.

(** X1. Whatever the relocation bytes, the delta and the image: the walk
    leaves an image of the same length, and it ends in success, in one of
    the four relocation errors, or in the panic of an 8-byte access at
    the end of the image; it returns no other error of the package. *)
Theorem relocatePE_invariants (relocData : list byte) (delta : Z) (data : list byte) :
  length (snd (relocatePE relocData delta data)) = length data /\
  (fst (relocatePE relocData delta data) = Ok \/
   fst (relocatePE relocData delta data) = Err ErrPeFailToGetPageRVA \/
   fst (relocatePE relocData delta data) = Err ErrPeFailToGetBlockSize \/
   fst (relocatePE relocData delta data) = Err ErrPeFailToGetEntry \/
   fst (relocatePE relocData delta data) = Err ErrPeRelocOutOfBound \/
   fst (relocatePE relocData delta data) = Panic).
Proof.
  pose proof (relocatePE_fuel (S (length relocData)) relocData delta data
                (Nat.lt_succ_diag_r _)) as H.
  destruct (relocatePE relocData delta data) as [res data'].
  apply relocateBlocks_invariants in H. exact H.
Qed.

(** ** relocateFdtdata: what every call keeps *)

Lemma relocateSections_invariants (sections : list pe_Section) (delta : Z) :
  forall image,
    length (snd (relocateSections sections delta image)) = length image /\
    fst (relocateSections sections delta image) <> Err ErrPeFailToCreatePeFile /\
    fst (relocateSections sections delta image) <> Err ErrPeUnsupportedPeHeader.
Proof.
  induction sections as [|section sections IH]; intro image.
  { repeat split; discriminate. }
  cbn [relocateSections]. destruct (String.eqb _ _); [|apply IH].
  destruct (sectionData section image) as [relocData|].
  2: { repeat split; discriminate. }
  destruct (relocatePE_invariants relocData delta image) as [Hl Hres].
  destruct (relocatePE relocData delta image) as [res image'].
  cbn [fst snd] in Hl, Hres.
  destruct res as [|e|].
  - destruct (IH image') as (Hl' & H1 & H2). repeat split; [congruence | assumption..].
  - cbn [fst snd]. repeat split; [exact Hl | |];
      intro E; inversion E; subst;
      destruct Hres as [H|[H|[H|[H|[H|H]]]]]; discriminate H.
  - cbn [fst snd]. repeat split; [exact Hl | discriminate..].
Qed.

Lemma slice_length (data : list byte) (lo hi : Z) :
  0 <= lo <= hi -> hi <= len data -> len (slice data lo hi) = hi - lo.
Proof.
  intros H Hh. unfold slice, len in *. rewrite length_firstn, length_skipn. lia.
Qed.

(** X2. Whatever [pe.NewFile] returns and however the call ends: the blob
    keeps its length, every byte before [DataOffset] and every byte from
    the end of the image on is as before, the offset and size of the image
    in the metadata are as before, and unless the call succeeds the whole
    metadata is as before; when the call ends before the relocation
    (in [ErrPeFailToCreatePeFile] or [ErrPeUnsupportedPeHeader]) the whole
    blob is as before. *)
Theorem relocateFdtdata_frame (pe_NewFile : list byte -> option pe_File)
  (dst : Z) (fdtLoad : FdtLoad) (data : list byte) :
  0 <= DataOffset fdtLoad ->
  let start := DataOffset fdtLoad in
  let end_ := uint32 (DataOffset fdtLoad + DataSize fdtLoad) in
  let res := fst (fst (relocateFdtdata pe_NewFile dst fdtLoad data)) in
  let fdtLoad' := snd (fst (relocateFdtdata pe_NewFile dst fdtLoad data)) in
  let data' := snd (relocateFdtdata pe_NewFile dst fdtLoad data) in
  length data' = length data /\
  firstn (Z.to_nat start) data' = firstn (Z.to_nat start) data /\
  skipn (Z.to_nat end_) data' = skipn (Z.to_nat end_) data /\
  DataOffset fdtLoad' = DataOffset fdtLoad /\
  DataSize fdtLoad' = DataSize fdtLoad /\
  (res <> Ok -> fdtLoad' = fdtLoad) /\
  (res = Err ErrPeFailToCreatePeFile \/ res = Err ErrPeUnsupportedPeHeader ->
   data' = data).
Proof.
  intro H0. cbv zeta. unfold relocateFdtdata.
  destruct (_ && _) eqn:Hb.
  2: { cbn [fst snd]. repeat split; intros; reflexivity. }
  apply andb_prop in Hb. destruct Hb as [Hb1 Hb2].
  apply Z.leb_le in Hb1. apply Z.leb_le in Hb2.
  set (end_ := uint32 (DataOffset fdtLoad + DataSize fdtLoad)) in *.
  set (start := DataOffset fdtLoad) in *.
  destruct (pe_NewFile _) as [peFile|].
  2: { cbn [fst snd]. repeat split; intros; reflexivity. }
  destruct (OptionalHeader peFile) as [| |preBase].
  1, 2: cbn [fst snd]; repeat split; intros; reflexivity.
  destruct (relocateSections_invariants (Sections peFile)
              (uint64 (uint64 (dst + start) - preBase)) (slice data start end_))
    as (Hl & Hn1 & Hn2).
  destruct (relocateSections _ _ _) as [res image']. cbn [fst snd] in Hl, Hn1, Hn2.
  assert (len (slice data start end_) = end_ - start) as Hs
      by (apply slice_length; lia).
  unfold len in Hs, Hb2.
  assert (length (firstn (Z.to_nat start) data) = Z.to_nat start) as Hf
      by (rewrite length_firstn; lia).
  assert (length (firstn (Z.to_nat start) data ++ image' ++ skipn (Z.to_nat end_) data)
          = length data) as Hlen.
  { rewrite !length_app, Hf, length_skipn. lia. }
  assert (firstn (Z.to_nat start)
            (firstn (Z.to_nat start) data ++ image' ++ skipn (Z.to_nat end_) data)
          = firstn (Z.to_nat start) data) as Hpre
      by (apply firstn_exact; exact Hf).
  assert (skipn (Z.to_nat end_)
            (firstn (Z.to_nat start) data ++ image' ++ skipn (Z.to_nat end_) data)
          = skipn (Z.to_nat end_) data) as Hpost.
  { rewrite app_assoc. apply skipn_exact. rewrite length_app, Hf. lia. }
  destruct res as [|e|]; cbn [fst snd DataOffset DataSize];
    (split; [exact Hlen|]); (split; [exact Hpre|]); (split; [exact Hpost|]);
    (split; [reflexivity|]); (split; [reflexivity|]); split.
  - intro E. now contradiction E.
  - intros [E|E]; discriminate E.
  - reflexivity.
  - intros [E|E]; [now contradiction Hn1 | now contradiction Hn2].
  - reflexivity.
  - intros [E|E]; discriminate E.
Qed.

Lemma relocateFdtdata_frame_witness :
  let run := relocateFdtdata exampleNewFile 0x10000000 exampleFdtLoad exampleBlob in
  firstn 16 (snd run) = firstn 16 exampleBlob /\
  length (snd run) = length exampleBlob.
Proof.
  intro run.
  destruct (relocateFdtdata_frame exampleNewFile 0x10000000 exampleFdtLoad exampleBlob)
    as (Hl & Hp & _); [cbn; lia|].
  split; [exact Hp | exact Hl].
Defined.

(** ** relocatePE: one block, fixups that fit *)

Lemma fixupsFit_inBounds (pageRVA : Z) (es : list Z) (data : list byte) :
  fixupsFit pageRVA es data -> Forall (inBounds data) (targets pageRVA es).
Proof.
  intros (_ & _ & _ & _ & Hb & _).
  pose proof (targets_nonneg pageRVA es) as H0.
  rewrite Forall_forall in *. intros a Ha. split; [apply H0 | apply Hb]; exact Ha.
Qed.

Lemma fixupsFit_length (pageRVA : Z) (es : list Z) (d1 d2 : list byte) :
  length d1 = length d2 -> fixupsFit pageRVA es d1 -> fixupsFit pageRVA es d2.
Proof. unfold fixupsFit, len. intros ->. exact (fun H => H). Qed.

(** The walk over one block whose fixups fit is the sequence of its
    fixups. *)
Lemma relocatePE_block_applyFixups (pageRVA D : Z) (es : list Z) (data : list byte) :
  fixupsFit pageRVA es data ->
  relocatePE (block pageRVA es) D data = (Ok, applyFixups D (targets pageRVA es) data).
Proof.
  intro Hfit. pose proof (fixupsFit_inBounds _ _ _ Hfit) as Hin.
  destruct Hfit as (Hp & Hes & Hsz & Hl & _ & _).
  unfold block. rewrite app_assoc.
  rewrite relocatePE_header by (rewrite length_app, !length_le_split; reflexivity).
  assert (pageRVAOf (le_split 4 pageRVA ++ le_split 4 (8 + 2 * Z.of_nat (length es)))
          = pageRVA) as ->.
  { unfold pageRVAOf. rewrite firstn_exact by apply length_le_split.
    rewrite le_combine_split. apply Z.mod_small. exact Hp. }
  assert (blockSizeOf (le_split 4 pageRVA ++ le_split 4 (8 + 2 * Z.of_nat (length es)))
          = 8 + 2 * Z.of_nat (length es)) as ->.
  { unfold blockSizeOf. rewrite skipn_exact by apply length_le_split.
    rewrite <- (length_le_split 4 (8 + 2 * Z.of_nat (length es))) at 1.
    rewrite firstn_all, le_combine_split. apply Z.mod_small. lia. }
  assert (entryCount (8 + 2 * Z.of_nat (length es)) = Z.of_nat (length es)) as ->.
  { unfold entryCount. rewrite uint32_small by lia.
    replace (8 + 2 * Z.of_nat (length es) - 8) with (Z.of_nat (length es) * 2) by lia.
    apply Z.div_mul. lia. }
  rewrite <- (app_nil_r (encodeEntries es)).
  rewrite relocateEntries_encode by (try assumption; lia).
  apply relocatePE_nil.
Qed.

(** Two images of the same length with the same value at [addr] have the
    same 8 bytes there. *)
Lemma valueAt_inj (d1 d2 : list byte) (addr : Z) (k : nat) :
  length d1 = length d2 -> inBounds d1 addr ->
  valueAt d1 addr = valueAt d2 addr ->
  addr <= Z.of_nat k < addr + 8 ->
  nth_error d1 k = nth_error d2 k.
Proof.
  intros Hl [H0 Hb] Hv Hk. unfold valueAt, len in *.
  apply le_combine_inj in Hv.
  2: { rewrite !length_firstn, !length_skipn. lia. }
  apply (f_equal (fun l => nth_error l (k - Z.to_nat addr))) in Hv.
  rewrite !nth_error_firstn, !nth_error_skipn in Hv.
  destruct (Nat.ltb_spec (k - Z.to_nat addr) 8); [|lia].
  replace (Z.to_nat addr + (k - Z.to_nat addr))%nat with k in Hv by lia.
  exact Hv.
Qed.

Lemma in_window_dec (addrs : list Z) (k : nat) :
  (exists a, In a addrs /\ a <= Z.of_nat k < a + 8) \/
  (forall a, In a addrs -> ~ (a <= Z.of_nat k < a + 8)).
Proof.
  induction addrs as [|b addrs [(a & Ha & Hk) | IH]].
  - right. intros a [].
  - left. exists a. split; [now right | exact Hk].
  - destruct (Z_le_dec b (Z.of_nat k)) as [H1|H1];
      [destruct (Z_lt_dec (Z.of_nat k) (b + 8)) as [H2|H2]|].
    + left. exists b. split; [now left | lia].
    + right. intros a [<- | Ha]; [lia | now apply IH].
    + right. intros a [<- | Ha]; [lia | now apply IH].
Qed.

(** Fixups that fit add up: the fixups by [D1] followed by the fixups by
    [D2] are the fixups by [D1 + D2]. *)
Lemma applyFixups_compose (D1 D2 : Z) (addrs : list Z) (data : list byte) :
  Forall (inBounds data) addrs -> spaced addrs ->
  applyFixups D2 addrs (applyFixups D1 addrs data)
  = applyFixups (uint64 (D1 + D2)) addrs data.
Proof.
  intros Hin Hs.
  set (d1 := applyFixups D1 addrs data).
  assert (length d1 = length data) as Hl1 by now apply applyFixups_length.
  assert (Forall (inBounds d1) addrs) as Hin1.
  { eapply Forall_impl; [|exact Hin]. intro b. apply inBounds_length. now symmetry. }
  assert (length (applyFixups D2 addrs d1) = length data) as Hl2
      by (rewrite applyFixups_length; assumption).
  assert (length (applyFixups (uint64 (D1 + D2)) addrs data) = length data) as Hl3
      by now apply applyFixups_length.
  pose proof (applyFixups_values D1 addrs data Hin Hs) as V1. fold d1 in V1.
  pose proof (applyFixups_values D2 addrs d1 Hin1 Hs) as V2.
  pose proof (applyFixups_values (uint64 (D1 + D2)) addrs data Hin Hs) as V3.
  rewrite Forall_forall in V1, V2, V3, Hin.
  apply nth_error_ext. intro k.
  destruct (in_window_dec addrs k) as [(a & Ha & Hk) | Hout].
  - apply (valueAt_inj _ _ a); [congruence | | | exact Hk].
    + apply (inBounds_length data); [now symmetry | now apply Hin].
    + rewrite (V2 a Ha), (V1 a Ha), (V3 a Ha). unfold uint64.
      rewrite Zplus_mod_idemp_l, Zplus_mod_idemp_r. f_equal. lia.
  - assert (Forall (inBounds data) addrs) as Hin0 by (apply Forall_forall; exact Hin).
    rewrite (applyFixups_frame D2 addrs d1 k Hin1 Hout). subst d1.
    rewrite (applyFixups_frame D1 addrs data k Hin0 Hout).
    rewrite (applyFixups_frame (uint64 (D1 + D2)) addrs data k Hin0 Hout).
    reflexivity.
Qed.

(** X3. Relocations of one block add up. When the fixups of the block fit
    the image, relocating by [D1] and then relocating the result by [D2]
    gives the image and the result of relocating once by [D1 + D2] (as a
    uint64). *)
Theorem relocatePE_compose (pageRVA D1 D2 : Z) (es : list Z) (data : list byte) :
  fixupsFit pageRVA es data ->
  relocatePE (block pageRVA es) D2 (snd (relocatePE (block pageRVA es) D1 data))
  = relocatePE (block pageRVA es) (uint64 (D1 + D2)) data.
Proof.
  intro Hfit. pose proof (fixupsFit_inBounds _ _ _ Hfit) as Hin.
  rewrite (relocatePE_block_applyFixups pageRVA D1) by exact Hfit. cbn [snd].
  rewrite !relocatePE_block_applyFixups.
  - f_equal. apply applyFixups_compose; [exact Hin | apply Hfit].
  - exact Hfit.
  - apply (fixupsFit_length pageRVA es data); [|exact Hfit].
    symmetry. now apply applyFixups_length.
Qed.

(** X4. Relocation of one block can be undone. When the fixups of the
    block fit the image, relocating by [D] and then by [-D] (as a uint64)
    succeeds and gives back the image, byte for byte. *)
Theorem relocatePE_undo (pageRVA D : Z) (es : list Z) (data : list byte) :
  fixupsFit pageRVA es data ->
  relocatePE (block pageRVA es) (uint64 (- D))
    (snd (relocatePE (block pageRVA es) D data))
  = (Ok, data).
Proof.
  intro Hfit. pose proof (fixupsFit_inBounds _ _ _ Hfit) as Hin.
  rewrite (relocatePE_block_applyFixups pageRVA D) by exact Hfit. cbn [snd].
  rewrite relocatePE_block_applyFixups.
  2: { apply (fixupsFit_length pageRVA es data); [|exact Hfit].
       symmetry. now apply applyFixups_length. }
  f_equal. rewrite applyFixups_compose by (try exact Hin; apply Hfit).
  assert (uint64 (D + uint64 (- D)) = 0) as ->.
  { unfold uint64. rewrite Zplus_mod_idemp_r. replace (D + - D) with 0 by lia.
    reflexivity. }
  pose proof (relocatePE_block_applyFixups pageRVA 0 es data Hfit) as H0.
  pose proof (relocatePE_delta0 (block pageRVA es) data) as H1.
  rewrite H0 in H1. exact H1.
Qed.

Lemma exampleEntries_fit : fixupsFit 0 exampleEntries exampleImage.
Proof.
  unfold fixupsFit.
  change (targets 0 exampleEntries) with [0; 16].
  change (len exampleImage) with 24. change (length exampleEntries) with 3%nat.
  split; [lia|]. split; [repeat constructor; lia|]. split; [lia|]. split; [lia|].
  split; repeat constructor; lia.
Defined.

Lemma relocatePE_compose_witness :
  relocatePE (block 0 exampleEntries) 0x234
    (snd (relocatePE (block 0 exampleEntries) 0x1000 exampleImage))
  = relocatePE (block 0 exampleEntries) (uint64 (0x1000 + 0x234)) exampleImage.
Proof. exact (relocatePE_compose 0 0x1000 0x234 exampleEntries exampleImage exampleEntries_fit). Defined.

Lemma relocatePE_undo_witness :
  relocatePE (block 0 exampleEntries) (uint64 (- 0x1000))
    (snd (relocatePE (block 0 exampleEntries) 0x1000 exampleImage))
  = (Ok, exampleImage).
Proof. exact (relocatePE_undo 0 0x1000 exampleEntries exampleImage exampleEntries_fit). Defined.

(** ** relocatePE: a block size below the size of the header *)

Lemma entryCount_below_header (blockSize : Z) :
  0 <= blockSize < 8 -> 2147483644 <= entryCount blockSize.
Proof.
  intro H. unfold entryCount, uint32.
  replace ((blockSize - 8) mod 2 ^ 32) with (blockSize - 8 + 2 ^ 32).
  - apply Z.div_le_lower_bound; lia.
  - apply (Z.mod_unique _ _ (-1)); lia.
Qed.

Lemma blockSizeOf_nonneg (hdr : list byte) : 0 <= blockSizeOf hdr.
Proof. unfold blockSizeOf. apply le_combine_bound. Qed.

(** X5. A block size smaller than the 8 bytes of the header is not
    rejected: whatever the page RVA, the subtraction of line 302 wraps
    around, the block counts 2147483644 entries or more, and with fewer
    bytes than that after the header the walk cannot succeed: it ends in
    [ErrPeFailToGetEntry], or in the failure of a fixup among the bytes it
    reads as entries. *)
Theorem relocatePE_block_size_below_header (hdr rest : list byte) (delta : Z)
  (data : list byte) :
  length hdr = 8%nat -> blockSizeOf hdr < 8 -> len rest < 2 * 2147483644 ->
  2147483644 <= entryCount (blockSizeOf hdr) /\
  unless_fixup_fails (fst (relocatePE (hdr ++ rest) delta data))
    (Err ErrPeFailToGetEntry).
Proof.
  intros Hh Hb Hr.
  assert (2147483644 <= entryCount (blockSizeOf hdr)) as Hc.
  { apply entryCount_below_header. pose proof (blockSizeOf_nonneg hdr). lia. }
  split; [exact Hc|].
  rewrite relocatePE_header by exact Hh.
  destruct (relocateEntries_short rest 0 (entryCount (blockSizeOf hdr))
              (pageRVAOf hdr) delta data) as (res & d & -> & Hres); [lia|].
  exact Hres.
Qed.

Lemma relocatePE_block_size_below_header_witness :
  let hdr := le_split 4 0x2000 ++ le_split 4 6 in
  fst (relocatePE (hdr ++ le_split 2 0x3004) 1 (repeat Byte.x00 16))
  = Err ErrPeFailToGetEntry.
Proof.
  intro hdr.
  destruct (relocatePE_block_size_below_header hdr (le_split 2 0x3004) 1
              (repeat Byte.x00 16)) as [_ [H | [H | H]]];
    [reflexivity | reflexivity | reflexivity | exact H | discriminate H | discriminate H].
Defined.

(** ** relocateFdtdata: sections *)

Lemma relocateSections_notReloc (sections : list pe_Section) (delta : Z)
  (image : list byte) :
  Forall notReloc sections -> relocateSections sections delta image = (Ok, image).
Proof.
  induction 1 as [|section sections Hn _ IH]; [reflexivity|].
  cbn [relocateSections]. unfold notReloc in Hn. rewrite Hn. exact IH.
Qed.

(** With one [.reloc] section among sections of other names, the loop
    over the sections is the walk over the bytes of that section. *)
Lemma relocateSections_one_reloc (before after : list pe_Section)
  (section : pe_Section) (relocData : list byte) (delta : Z) (image : list byte) :
  Forall notReloc before -> Forall notReloc after ->
  String.eqb (sectionName section) ".reloc" = true ->
  sectionData section image = Some relocData ->
  relocateSections (before ++ section :: after) delta image
  = relocatePE relocData delta image.
Proof.
  intros Hb Ha Hn Hd. induction Hb as [|s before Hs _ IH].
  - cbn [app relocateSections]. rewrite Hn, Hd.
    destruct (relocatePE relocData delta image) as [[|e|] image']; try reflexivity.
    now apply relocateSections_notReloc.
  - cbn [app relocateSections]. unfold notReloc in Hs. rewrite Hs. exact IH.
Qed.

(** X6. An image without a [.reloc] section has nothing to relocate: when
    the image range lies in the blob and the image parses with a 64-bit
    optional header, the call succeeds, the blob is as before, and the
    metadata is rebased to [dst]. *)
Theorem relocateFdtdata_no_reloc (pe_NewFile : list byte -> option pe_File)
  (dst : Z) (fdtLoad : FdtLoad) (data : list byte) (peFile : pe_File) (preBase : Z) :
  let start := DataOffset fdtLoad in
  let end_ := uint32 (DataOffset fdtLoad + DataSize fdtLoad) in
  0 <= start <= end_ -> end_ <= len data ->
  pe_NewFile (slice data start end_) = Some peFile ->
  OptionalHeader peFile = OptionalHeader64 preBase ->
  Forall notReloc (Sections peFile) ->
  relocateFdtdata pe_NewFile dst fdtLoad data = (Ok, rebased dst fdtLoad, data).
Proof.
  intros start end_ Hs He Hpe Hoh Hn. subst start end_.
  unfold relocateFdtdata. cbv zeta.
  destruct (Z.leb_spec (DataOffset fdtLoad)
              (uint32 (DataOffset fdtLoad + DataSize fdtLoad))); [|lia].
  destruct (Z.leb_spec (uint32 (DataOffset fdtLoad + DataSize fdtLoad)) (len data));
    [|lia].
  cbn [andb]. rewrite Hpe, Hoh.
  rewrite relocateSections_notReloc by exact Hn.
  rewrite slice_restore by assumption. reflexivity.
Qed.

Lemma relocateFdtdata_no_reloc_witness :
  relocateFdtdata (fun _ => Some exampleNoReloc) 0x10000000 exampleFdtLoad exampleBlob
  = (Ok, rebased 0x10000000 exampleFdtLoad, exampleBlob).
Proof.
  apply (relocateFdtdata_no_reloc (fun _ => Some exampleNoReloc) 0x10000000
           exampleFdtLoad exampleBlob exampleNoReloc 0x800000).
  - change (0 <= 16 <= 24). lia.
  - change (24 <= 24). lia.
  - reflexivity.
  - reflexivity.
  - repeat constructor.
Defined.

(** ** relocateFdtdata: from the blob to the pointers of the image *)

Lemma valueAt_middle (pre img post : list byte) (s a : Z) :
  0 <= s -> 0 <= a -> length pre = Z.to_nat s -> a + 8 <= len img ->
  valueAt (pre ++ img ++ post) (s + a) = valueAt img a.
Proof.
  intros Hs Ha Hp Hb. unfold valueAt, len in *.
  rewrite Z2Nat.inj_add, Nat.add_comm, <- skipn_skipn by assumption.
  rewrite skipn_exact by exact Hp.
  rewrite skipn_app_le by lia.
  rewrite firstn_app_le by (rewrite length_skipn; lia).
  reflexivity.
Qed.

Lemma nth_error_middle (pre img img' post : list byte) (k : nat) :
  length img' = length img ->
  ((length pre <= k < length pre + length img)%nat ->
   nth_error img' (k - length pre) = nth_error img (k - length pre)) ->
  nth_error (pre ++ img' ++ post) k = nth_error (pre ++ img ++ post) k.
Proof.
  intros Hl H.
  destruct (Nat.lt_ge_cases k (length pre)) as [H1|H1].
  { rewrite !nth_error_app1 by exact H1. reflexivity. }
  rewrite !(nth_error_app2 pre) by exact H1.
  destruct (Nat.lt_ge_cases (k - length pre) (length img)) as [H2|H2].
  - rewrite !nth_error_app1 by lia. apply H. lia.
  - rewrite !nth_error_app2 by lia. rewrite Hl. reflexivity.
Qed.

(** X7. The relocation of an image with one [.reloc] section holding one
    block whose fixups fit the image (the other sections having other
    names): the call succeeds and rebases the metadata; in the blob, the
    64-bit value at [DataOffset + a], for every target [a] of a DIR64
    entry, is the original one plus [dst + DataOffset - ImageBase] modulo
    [2^64]; every byte of the blob outside these values is as before. *)
Theorem relocateFdtdata_one_block (pe_NewFile : list byte -> option pe_File)
  (dst : Z) (fdtLoad : FdtLoad) (data : list byte) (peFile : pe_File)
  (preBase : Z) (before after : list pe_Section) (section : pe_Section)
  (pageRVA : Z) (es : list Z) :
  let start := DataOffset fdtLoad in
  let end_ := uint32 (DataOffset fdtLoad + DataSize fdtLoad) in
  let delta := uint64 (uint64 (dst + DataOffset fdtLoad) - preBase) in
  0 <= start <= end_ -> end_ <= len data ->
  pe_NewFile (slice data start end_) = Some peFile ->
  OptionalHeader peFile = OptionalHeader64 preBase ->
  Sections peFile = before ++ section :: after ->
  Forall notReloc before -> Forall notReloc after ->
  String.eqb (sectionName section) ".reloc" = true ->
  sectionData section (slice data start end_) = Some (block pageRVA es) ->
  fixupsFit pageRVA es (slice data start end_) ->
  exists data',
    relocateFdtdata pe_NewFile dst fdtLoad data = (Ok, rebased dst fdtLoad, data') /\
    Forall (fun a => valueAt data' (start + a)
                     = uint64 (valueAt data (start + a) + delta))
      (targets pageRVA es) /\
    (forall k : nat,
        (forall a, In a (targets pageRVA es) ->
                   ~ (start + a <= Z.of_nat k < start + a + 8)) ->
        nth_error data' k = nth_error data k).
Proof.
  intros start end_ delta Hs He Hpe Hoh Hsec Hb Ha Hn Hd Hfit.
  subst start end_ delta.
  assert (relocateFdtdata pe_NewFile dst fdtLoad data
          = (Ok, rebased dst fdtLoad,
             firstn (Z.to_nat (DataOffset fdtLoad)) data
             ++ applyFixups (uint64 (uint64 (dst + DataOffset fdtLoad) - preBase))
                  (targets pageRVA es)
                  (slice data (DataOffset fdtLoad)
                     (uint32 (DataOffset fdtLoad + DataSize fdtLoad)))
             ++ skipn (Z.to_nat (uint32 (DataOffset fdtLoad + DataSize fdtLoad))) data))
    as Hrun.
  { unfold relocateFdtdata. cbv zeta.
    destruct (Z.leb_spec (DataOffset fdtLoad)
                (uint32 (DataOffset fdtLoad + DataSize fdtLoad))); [|lia].
    destruct (Z.leb_spec (uint32 (DataOffset fdtLoad + DataSize fdtLoad)) (len data));
      [|lia].
    cbn [andb]. rewrite Hpe, Hoh, Hsec.
    rewrite (relocateSections_one_reloc before after section (block pageRVA es))
      by assumption.
    rewrite relocatePE_block_applyFixups by exact Hfit. reflexivity. }
  set (end_ := uint32 (DataOffset fdtLoad + DataSize fdtLoad)) in *.
  set (delta := uint64 (uint64 (dst + DataOffset fdtLoad) - preBase)) in *.
  set (start := DataOffset fdtLoad) in *.
  set (image := slice data start end_) in *.
  pose proof (fixupsFit_inBounds _ _ _ Hfit) as Hin.
  assert (Hspaced : spaced (targets pageRVA es)) by apply Hfit.
  set (image' := applyFixups delta (targets pageRVA es) image) in *.
  assert (length image' = length image) as Hl by now apply applyFixups_length.
  assert (length (firstn (Z.to_nat start) data) = Z.to_nat start) as Hf
      by (rewrite length_firstn; unfold len in *; lia).
  pose proof (slice_restore data start end_ Hs He) as Hdata. fold image in Hdata.
  exists (firstn (Z.to_nat start) data ++ image' ++ skipn (Z.to_nat end_) data).
  split; [exact Hrun|]. split.
  - pose proof (applyFixups_values delta _ _ Hin Hspaced) as Hv. fold image' in Hv.
    rewrite Forall_forall in Hv, Hin |- *. intros a Hain.
    destruct (Hin a Hain) as [Ha0 Hab].
    rewrite valueAt_middle by (try assumption; try lia; unfold len in *; lia).
    rewrite (Hv a Hain). do 2 f_equal.
    rewrite <- Hdata at 1. symmetry.
    apply valueAt_middle; try assumption; lia.
  - intros k Hk.
    replace (nth_error data k)
      with (nth_error (firstn (Z.to_nat start) data ++ image
                       ++ skipn (Z.to_nat end_) data) k)
      by (now rewrite Hdata).
    apply nth_error_middle; [exact Hl|]. intro Hrange.
    apply applyFixups_frame; [exact Hin|].
    intros a Hain Hwin. apply (Hk a Hain). rewrite Hf in Hwin. lia.
Qed.

Lemma relocateFdtdata_one_block_witness :
  exists data',
    relocateFdtdata exampleNewFile 0x10000000 exampleFdtLoad exampleBlob
    = (Ok, rebased 0x10000000 exampleFdtLoad, data') /\
    valueAt data' 16 = 0x800100 + (0x10000000 + 16 - 0x800000) /\
    firstn 16 data' = firstn 16 exampleBlob.
Proof.
  assert (targets 0 [0xA000] = [0]) as Ht by reflexivity.
  destruct (relocateFdtdata_one_block exampleNewFile 0x10000000 exampleFdtLoad
              exampleBlob examplePeFile 0x800000 [] []
              {| sectionName := ".reloc";
                 sectionData := fun _ => Some (block 0 [0xA000]) |} 0 [0xA000])
    as (data' & Hrun & Hv & Hk).
  - change (0 <= 16 <= 24). lia.
  - change (24 <= 24). lia.
  - reflexivity.
  - reflexivity.
  - reflexivity.
  - constructor.
  - constructor.
  - reflexivity.
  - reflexivity.
  - unfold fixupsFit. rewrite Ht.
    change (len (slice exampleBlob (DataOffset exampleFdtLoad)
                   (uint32 (DataOffset exampleFdtLoad + DataSize exampleFdtLoad))))
      with 8.
    split; [lia|]. split; [repeat constructor; lia|]. split; [cbn; lia|].
    split; [lia|]. split; repeat constructor; lia.
  - exists data'. split; [exact Hrun|]. rewrite Ht in Hv, Hk.
    inversion Hv as [|? ? H0 _]; subst. split; [exact H0|].
    apply nth_error_ext. intro i. rewrite !nth_error_firstn.
    destruct (Nat.ltb_spec i 16); [|reflexivity].
    apply Hk. intros a [<- | []]. cbn. lia.
Defined.

(** ** alignHOBLength: every pair of lengths *)

(** X8. For every expected length (a uint64) and every claimed length (an
    int, negative ones included): the call succeeds exactly when
    [0 <= bufLen <= expectLen <= MaxInt]; it returns no error other than
    [ErrAlignPadRange]; a failed call leaves the buffer as it was; and in
    every case the old content stays in front, followed by zero bytes
    only. *)
Theorem alignHOBLength_outcomes (expectLen bufLen : Z) (buf : list byte) :
  0 <= expectLen < 2 ^ 64 -> - 2 ^ 63 <= bufLen < 2 ^ 63 ->
  let res := fst (alignHOBLength expectLen bufLen buf) in
  let out := snd (alignHOBLength expectLen bufLen buf) in
  (res = Ok <-> 0 <= bufLen <= expectLen /\ expectLen <= MaxInt) /\
  (res = Ok \/ res = Err ErrAlignPadRange) /\
  (res <> Ok -> out = buf) /\
  (exists pad, out = buf ++ pad /\ Forall (fun b => b = Byte.x00) pad).
Proof.
  intros HE Hb. cbv zeta.
  destruct (Z_le_dec 0 bufLen) as [H0|H0];
    [destruct (Z_le_dec bufLen expectLen) as [H1|H1];
     [destruct (Z_le_dec expectLen MaxInt) as [H2|H2]|]|].
  - rewrite alignHOBLength_ok by lia. cbn [fst snd].
    split; [tauto|]. split; [now left|]. split; [intro H; now contradiction H|].
    eexists. split; [reflexivity|].
    apply Forall_forall. intros b Hin. now apply repeat_spec in Hin.
  - rewrite alignHOBLength_range by lia. cbn [fst snd].
    split; [split; [discriminate | lia]|]. split; [now right|].
    split; [reflexivity|]. exists []. split; [now rewrite app_nil_r | constructor].
  - rewrite alignHOBLength_range by lia. cbn [fst snd].
    split; [split; [discriminate | lia]|]. split; [now right|].
    split; [reflexivity|]. exists []. split; [now rewrite app_nil_r | constructor].
  - assert (alignHOBLength expectLen bufLen buf = (Err ErrAlignPadRange, buf)) as ->.
    { destruct (Z_le_dec expectLen MaxInt) as [H2|H2].
      - apply alignHOBLength_negative_bufLen; lia.
      - unfold alignHOBLength. destruct (_ <? _); [reflexivity|].
        destruct (expectLen >? MaxInt) eqn:E; [reflexivity|].
        rewrite Z.gtb_ltb in E. apply Z.ltb_ge in E. lia. }
    cbn [fst snd].
    split; [split; [discriminate | lia]|]. split; [now right|].
    split; [reflexivity|]. exists []. split; [now rewrite app_nil_r | constructor].
Qed.

Lemma alignHOBLength_outcomes_witness :
  fst (alignHOBLength 16 (-1) (repeat Byte.x2a 10)) = Err ErrAlignPadRange /\
  snd (alignHOBLength 16 (-1) (repeat Byte.x2a 10)) = repeat Byte.x2a 10.
Proof.
  destruct (alignHOBLength_outcomes 16 (-1) (repeat Byte.x2a 10))
    as (Hok & [H | H] & Hsame & _); [lia | lia | |].
  - apply Hok in H. lia.
  - split; [exact H|]. apply Hsame. rewrite H. discriminate.
Defined.

(** ** getFdtInfo: read and conversion errors *)

Section GetFdtInfoErrors.

Context {dt : DeviceTree}.

(** X9. A blob that cannot be read gives [ErrFailToReadFdtFile]. A
    property that is found and does not decode gives the conversion error
    of that property and no result; the properties are looked up and
    decoded one after the other ([load], [entry-start], [data-offset],
    [data-size]), so the conversion error of one does not depend on the
    properties after it being there. *)
Theorem getFdtInfo_conversion_errors (name : string) (dtb : option ReaderAt) :
  (readFdt name dtb = None ->
   getFdtInfo name dtb = (None, Some ErrFailToReadFdtFile)) /\
  forall fdt images tianocore,
    readFdt name dtb = Some fdt ->
    FDT_NodeByName fdt FirstLevelNodeName = Some images ->
    Node_NodeByName images SecondLevelNodeName = Some tianocore ->
  forall loadProp,
    LookProperty tianocore LoadAddrPropertyName = Some loadProp ->
  (AsU64 loadProp = None ->
   getFdtInfo name dtb = (None, Some ErrFailToConvertLoad)) /\
  forall load entryProp,
    AsU64 loadProp = Some load ->
    LookProperty tianocore EntryAddrPropertyName = Some entryProp ->
  (AsU64 entryProp = None ->
   getFdtInfo name dtb = (None, Some ErrFailToConvertEntryStart)) /\
  forall entry offsetProp,
    AsU64 entryProp = Some entry ->
    LookProperty tianocore DataOffsetPropertyName = Some offsetProp ->
  (AsU32 offsetProp = None ->
   getFdtInfo name dtb = (None, Some ErrFailToConvertDataOffset)) /\
  forall offset sizeProp,
    AsU32 offsetProp = Some offset ->
    LookProperty tianocore DataSizePropertyName = Some sizeProp ->
    AsU32 sizeProp = None ->
    getFdtInfo name dtb = (None, Some ErrFailToConvertDataSize).
Proof.
  unfold getFdtInfo. split; [intros ->; reflexivity|].
  intros fdt images tianocore -> -> -> loadProp ->.
  split; [intros ->; reflexivity|]. intros load entryProp -> ->.
  split; [intros ->; reflexivity|]. intros entry offsetProp -> ->.
  split; [intros ->; reflexivity|]. intros offset sizeProp -> -> ->.
  reflexivity.
Qed.

End GetFdtInfoErrors.

Lemma getFdtInfo_conversion_errors_witness :
  @getFdtInfo (treeDT noFiles) "" (Some exampleShortLoad)
  = (None, Some ErrFailToConvertLoad).
Proof.
  exact (proj1 (proj2 (@getFdtInfo_conversion_errors (treeDT noFiles) ""
                         (Some exampleShortLoad))
                  exampleShortLoad
                  (mkNode "images" [] [mkNode "tianocore"
                                         [("load"%string, be_split 4 0x800000)] []])
                  (mkNode "tianocore" [("load"%string, be_split 4 0x800000)] [])
                  eq_refl eq_refl eq_refl (be_split 4 0x800000) eq_refl)
           eq_refl).
Defined.

(** ** getPhysicalAddressSizes: the scan *)

Lemma digitsValue_nonneg (s : list ascii) :
  forall acc v, 0 <= acc -> digitsValue acc s = Some v -> 0 <= v.
Proof.
  induction s as [|c s IH]; intros acc v Hacc H; cbn [digitsValue] in H.
  - inversion H. subst. exact Hacc.
  - destruct (isDigit c) eqn:Hd; [|discriminate].
    apply IH in H; [exact H|].
    unfold isDigit in Hd. apply andb_prop in Hd. destruct Hd as [H1 _].
    apply Nat.leb_le in H1. lia.
Qed.

Lemma ParseUint8_range (s : list ascii) (v : Z) :
  ParseUint8 s = Some v -> 0 <= v <= 255.
Proof.
  unfold ParseUint8. destruct s as [|c s]; [discriminate|].
  destruct (digitsValue 0 (c :: s)) as [w|] eqn:Hd; [|discriminate].
  destruct (Z.leb_spec w 255) as [Hle|Hgt]; [|discriminate].
  intro Heq. inversion Heq. subst. split; [|assumption].
  apply (digitsValue_nonneg (c :: s) 0); [lia | exact Hd].
Qed.

(** X10. The first line the pattern matches decides: the lines after it
    and a read error after it are never looked at.  The value is the
    number of its first group when that is at most 255, and otherwise the
    call fails with [ErrCPUAddressConvert].  When no line matches, the
    call fails with [ErrCPUAddressRead] if the scan ended in an error and
    with [ErrCPUAddressNotFound] if not.  The value returned is below 256,
    and 0 with every error. *)
Theorem getPhysicalAddressSizes_scan (before after : list (list ascii))
  (line : list ascii) (scanErr : bool) :
  Forall (fun l => FindStringSubmatch l = None) before ->
  (forall phys virt,
      FindStringSubmatch line = Some (phys, virt) ->
      getPhysicalAddressSizes (Some (before ++ line :: after, scanErr))
      = fromGroup phys) /\
  getPhysicalAddressSizes (Some (before, scanErr))
  = (0, Some (if scanErr then ErrCPUAddressRead else ErrCPUAddressNotFound)) /\
  (forall lines,
      0 <= fst (getPhysicalAddressSizes (Some (lines, scanErr))) < 256 /\
      (snd (getPhysicalAddressSizes (Some (lines, scanErr))) <> None ->
       fst (getPhysicalAddressSizes (Some (lines, scanErr))) = 0)).
Proof.
  intro Hb. cbn [getPhysicalAddressSizes]. split; [|split].
  - intros phys virt Hm. induction Hb as [|l before Hl _ IH].
    + cbn [app scanLines]. rewrite Hm. unfold fromGroup.
      destruct (ParseUint8 phys) as [v|] eqn:Hp; [|reflexivity].
      apply ParseUint8_range in Hp. unfold uint8. rewrite Z.mod_small by lia.
      reflexivity.
    + cbn [app scanLines]. rewrite Hl. exact IH.
  - induction Hb as [|l before Hl _ IH].
    + cbn [scanLines]. destruct scanErr; reflexivity.
    + cbn [scanLines]. rewrite Hl. exact IH.
  - induction lines as [|l lines IH].
    + cbn [scanLines]. destruct scanErr; cbn [fst snd]; split; (lia || reflexivity).
    + cbn [scanLines]. destruct (FindStringSubmatch l) as [[phys virt]|]; [|exact IH].
      destruct (ParseUint8 phys) as [v|] eqn:Hp.
      * apply ParseUint8_range in Hp. cbn [fst snd]. unfold uint8.
        rewrite Z.mod_small by lia. split; [lia|]. intro H. now contradiction H.
      * cbn [fst snd]. split; [lia | reflexivity].
Qed.

(** ** getPhysicalAddressSizes: the pattern *)

Lemma literal_app (lit s : list ascii) : literal lit (lit ++ s) = Some s.
Proof.
  induction lit as [|c lit IH]; [destruct s; reflexivity|].
  cbn [app literal]. rewrite Ascii.eqb_refl. exact IH.
Qed.

Lemma span_stop (p : ascii -> bool) (c : ascii) (s : list ascii) :
  p c = false -> span p (c :: s) = ([], c :: s).
Proof. intro H. cbn [span]. now rewrite H. Qed.

Lemma span_run (p : ascii -> bool) (a : list ascii) (c : ascii) (s : list ascii) :
  Forall (fun c => p c = true) a -> p c = false ->
  span p (a ++ c :: s) = (a, c :: s).
Proof.
  intros Ha Hc. induction Ha as [|d a Hd _ IH].
  - now apply span_stop.
  - cbn [app span]. rewrite Hd, IH. reflexivity.
Qed.

Lemma isDigit_not_space (c : ascii) : isDigit c = true -> isSpace c = false.
Proof.
  destruct c as [[] [] [] [] [] [] [] []]; cbn; intro H;
    first [reflexivity | discriminate H].
Qed.

Lemma isSpace_not_digit (c : ascii) : isSpace c = true -> isDigit c = false.
Proof.
  intro H. destruct (isDigit c) eqn:E; [|reflexivity].
  apply isDigit_not_space in E. congruence.
Qed.

(** The pattern matches at the head of a line of the form it describes,
    whatever follows, with the two numbers as groups. *)
Lemma matchHere_addressSizesLine (ws1 ws2 phys ws3 ws4 virt ws5 post : list ascii) :
  Forall (fun c => isSpace c = true) ws1 ->
  Forall (fun c => isSpace c = true) ws2 ->
  run isDigit phys -> run isSpace ws3 ->
  Forall (fun c => isSpace c = true) ws4 ->
  run isDigit virt -> run isSpace ws5 ->
  matchHere (addressSizesLine ws1 ws2 phys ws3 ws4 virt ws5 ++ post)
  = Some (phys, virt).
Proof.
  intros H1 H2 [Np Hp] [N3 H3] H4 [Nv Hv] [N5 H5].
  destruct phys as [|p0 phys]; [now contradiction Np|].
  destruct ws3 as [|s3 ws3]; [now contradiction N3|].
  destruct virt as [|v0 virt]; [now contradiction Nv|].
  destruct ws5 as [|s5 ws5]; [now contradiction N5|].
  assert (isSpace p0 = false) as Hp0
      by (apply isDigit_not_space; now inversion Hp).
  assert (isDigit s3 = false) as Hs3
      by (apply isSpace_not_digit; now inversion H3).
  assert (isSpace v0 = false) as Hv0
      by (apply isDigit_not_space; now inversion Hv).
  assert (isDigit s5 = false) as Hs5
      by (apply isSpace_not_digit; now inversion H5).
  unfold matchHere, addressSizesLine.
  rewrite <- !app_assoc, literal_app.
  change (list_ascii_of_string ":") with [":"%char].
  cbn [app]. rewrite (span_run isSpace ws1) by (assumption || reflexivity).
  change (":"%char :: ?x) with ([":"%char] ++ x).
  rewrite (literal_app [":"%char]).
  rewrite (span_run isSpace ws2) by assumption.
  change (p0 :: phys ++ s3 :: ?x) with ((p0 :: phys) ++ s3 :: x).
  rewrite (span_run isDigit (p0 :: phys)) by assumption.
  change (list_ascii_of_string "bits physical,")
    with ("b"%char :: list_ascii_of_string "its physical,").
  change (s3 :: ws3 ++ ?x) with ((s3 :: ws3) ++ x). cbn [app].
  change (s3 :: ws3 ++ "b"%char :: ?x) with ((s3 :: ws3) ++ "b"%char :: x).
  rewrite (span_run isSpace (s3 :: ws3)) by (assumption || reflexivity).
  change ("b"%char :: list_ascii_of_string "its physical," ++ ?x)
    with (list_ascii_of_string "bits physical," ++ x).
  rewrite literal_app.
  rewrite (span_run isSpace ws4) by assumption.
  change (v0 :: virt ++ s5 :: ?x) with ((v0 :: virt) ++ s5 :: x).
  rewrite (span_run isDigit (v0 :: virt)) by assumption.
  change (list_ascii_of_string "bits virtual")
    with ("b"%char :: list_ascii_of_string "its virtual").
  cbn [app].
  change (s5 :: ws5 ++ "b"%char :: ?x) with ((s5 :: ws5) ++ "b"%char :: x).
  rewrite (span_run isSpace (s5 :: ws5)) by (assumption || reflexivity).
  change ("b"%char :: list_ascii_of_string "its virtual" ++ post)
    with (list_ascii_of_string "bits virtual" ++ post).
  rewrite literal_app. reflexivity.
Qed.

Lemma FindStringSubmatch_eq (line : list ascii) :
  FindStringSubmatch line
  = match matchHere line with
    | Some m => Some m
    | None =>
        match line with
        | [] => None
        | _ :: line' => FindStringSubmatch line'
        end
    end.
Proof. destruct line; reflexivity. Qed.

(** No match starts at a character other than the first of the
    pattern. *)
Lemma matchHere_not_a (c : ascii) (s : list ascii) :
  c <> "a"%char -> matchHere (c :: s) = None.
Proof.
  intro H. unfold matchHere.
  change (list_ascii_of_string "address sizes")
    with ("a"%char :: list_ascii_of_string "ddress sizes").
  cbn [literal].
  destruct (Ascii.eqb_spec "a"%char c) as [E|E]; [now contradiction H | reflexivity].
Qed.

Lemma FindStringSubmatch_prefix (pre m : list ascii) (g : list ascii * list ascii) :
  Forall (fun c => c <> "a"%char) pre -> matchHere m = Some g ->
  FindStringSubmatch (pre ++ m) = Some g.
Proof.
  intros Hpre Hm. induction Hpre as [|c pre Hc _ IH].
  - cbn [app]. rewrite FindStringSubmatch_eq, Hm. reflexivity.
  - cbn [app]. rewrite FindStringSubmatch_eq, matchHere_not_a by exact Hc.
    exact IH.
Qed.

Lemma scanLines_first_match (before after : list (list ascii)) (line : list ascii)
  (scanErr : bool) (phys virt : list ascii) :
  Forall (fun l => FindStringSubmatch l = None) before ->
  FindStringSubmatch line = Some (phys, virt) ->
  scanLines (before ++ line :: after) scanErr = fromGroup phys.
Proof.
  intros Hb Hm. induction Hb as [|l before Hl _ IH].
  - cbn [app scanLines]. rewrite Hm. unfold fromGroup.
    destruct (ParseUint8 phys) as [v|] eqn:Hp; [|reflexivity].
    apply ParseUint8_range in Hp. unfold uint8. rewrite Z.mod_small by lia.
    reflexivity.
  - cbn [app scanLines]. rewrite Hl. exact IH.
Qed.

Lemma digitsValue_digits (s : list ascii) :
  Forall (fun c => isDigit c = true) s ->
  forall acc, exists v, digitsValue acc s = Some v.
Proof.
  induction 1 as [|c s Hc _ IH]; intro acc.
  - exists acc. reflexivity.
  - cbn [digitsValue]. rewrite Hc. apply IH.
Qed.

(** X11. A report whose first matching line reads
    [address sizes : N bits physical, M bits virtual] (with any runs of
    spaces the pattern allows, after any text without the letter a and
    before any text at all): the probe returns the number [N] when it is
    at most 255, leading zeros allowed, and fails with
    [ErrCPUAddressConvert] when it is larger, whatever the lines after it
    and however the scan would end. *)
Theorem getPhysicalAddressSizes_addressSizesLine
  (before after : list (list ascii)) (scanErr : bool)
  (pre post ws1 ws2 phys ws3 ws4 virt ws5 : list ascii) :
  Forall (fun l => FindStringSubmatch l = None) before ->
  Forall (fun c => c <> "a"%char) pre ->
  Forall (fun c => isSpace c = true) ws1 ->
  Forall (fun c => isSpace c = true) ws2 ->
  run isDigit phys -> run isSpace ws3 ->
  Forall (fun c => isSpace c = true) ws4 ->
  run isDigit virt -> run isSpace ws5 ->
  let line := pre ++ addressSizesLine ws1 ws2 phys ws3 ws4 virt ws5 ++ post in
  exists N,
    digitsValue 0 phys = Some N /\ 0 <= N /\
    getPhysicalAddressSizes (Some (before ++ line :: after, scanErr))
    = if N <=? 255 then (N, None) else (0, Some ErrCPUAddressConvert).
Proof.
  intros Hb Hpre H1 H2 Hp H3 H4 Hv H5 line.
  destruct (digitsValue_digits phys (proj2 Hp) 0) as (N & HN).
  exists N. split; [exact HN|]. split.
  { apply (digitsValue_nonneg phys 0); [lia | exact HN]. }
  cbn [getPhysicalAddressSizes].
  rewrite (scanLines_first_match before after line scanErr phys virt Hb).
  - unfold fromGroup, ParseUint8. destruct Hp as [Np _].
    destruct phys as [|c phys]; [now contradiction Np|].
    rewrite HN. destruct (N <=? 255); reflexivity.
  - subst line. apply FindStringSubmatch_prefix; [exact Hpre|].
    now apply matchHere_addressSizesLine.
Qed.

Lemma getPhysicalAddressSizes_addressSizesLine_witness :
  getPhysicalAddressSizes
    (Some ([list_ascii_of_string "flags : fpu vme"; exampleCpuinfoLine;
            list_ascii_of_string "power management:"], true))
  = (39, None).
Proof.
  assert (Forall (fun c => isSpace c = true) [" "%char]) as Hsp
      by (repeat constructor).
  assert (run isSpace [" "%char]) as Hrun by (split; [discriminate | exact Hsp]).
  destruct (getPhysicalAddressSizes_addressSizesLine
              [list_ascii_of_string "flags : fpu vme"]
              [list_ascii_of_string "power management:"] true
              [] [] ["009"%char] [" "%char] (list_ascii_of_string "39") [" "%char]
              [" "%char] (list_ascii_of_string "48") [" "%char])
    as (N & HN & _ & Hrun');
    try assumption.
  - repeat constructor.
  - constructor.
  - repeat constructor.
  - split; [discriminate | repeat constructor].
  - split; [discriminate | repeat constructor].
  - inversion HN; subst N. rewrite app_nil_r in Hrun'. exact Hrun'.
Defined.

Lemma getPhysicalAddressSizes_scan_witness :
  getPhysicalAddressSizes
    (Some ([list_ascii_of_string "flags : fpu vme"], true))
  = (0, Some ErrCPUAddressRead).
Proof.
  refine (proj1 (proj2 (getPhysicalAddressSizes_scan
                          [list_ascii_of_string "flags : fpu vme"] [] [] true _))).
  repeat constructor.
Defined.

(** ** relocatePE: one directory after another *)

(** X12. Walking two relocation streams one after the other is walking
    their concatenation: when the walk over [pre] succeeds and leaves the
    image [d1], the walk over [pre ++ rest] is the walk over [rest]
    started from [d1], with the same result and the same image. *)
Theorem relocatePE_app (pre rest : list byte) (delta : Z) (data d1 : list byte) :
  relocatePE pre delta data = (Ok, d1) ->
  relocatePE (pre ++ rest) delta data = relocatePE rest delta d1.
Proof.
  intro H.
  assert (framed pre) as Hf.
  { apply (relocatePE_Ok_framed (length pre) pre delta data); [lia|].
    rewrite H. reflexivity. }
  destruct (relocatePE_framed_app pre Hf delta data)
    as [(d & Hd) | (res & d & Hres & Hd)].
  - pose proof (Hd []) as H0. rewrite app_nil_r, H, relocatePE_nil in H0.
    inversion H0; subst d. apply Hd.
  - pose proof (Hd []) as H0. rewrite app_nil_r, H in H0.
    inversion H0; subst res. destruct Hres; discriminate.
Qed.

Lemma relocatePE_app_witness :
  relocatePE (block 0 exampleEntries ++ block 0 exampleEntries) 0x1000 exampleImage
  = relocatePE (block 0 exampleEntries) 0x1000
      (applyFixups 0x1000 (targets 0 exampleEntries) exampleImage).
Proof.
  apply (relocatePE_app (block 0 exampleEntries) (block 0 exampleEntries) 0x1000
           exampleImage).
  reflexivity.
Defined.

(** ** relocatePE: an empty image *)

Lemma relocateEntries_empty_image (r : list byte) :
  forall i n p d,
    match relocateEntries r i n p d [] with
    | Done _ data' => data' = []
    | Stop res data' => data' = [] /\ res <> Panic
    end.
Proof.
  induction r as [| b0 | b0 b1 r IH] using list_pair_ind; intros i n p d.
  1, 2: destruct (Z.lt_ge_cases i n) as [Hlt|Hge];
    [ rewrite relocateEntries_eof by (cbn [length]; lia); split;
      [reflexivity | discriminate]
    | rewrite relocateEntries_done by lia; reflexivity ].
  destruct (Z.lt_ge_cases i n) as [Hlt|Hge].
  - rewrite relocateEntries_step by lia. unfold relocateEntry.
    destruct (_ =? _).
    + rewrite relocateDIR64_out_of_bound.
      * split; [reflexivity | discriminate].
      * change (len []) with 0. lia.
      * change (len []) with 0. apply relocAddr_range.
    + apply IH.
  - rewrite relocateEntries_done by lia. reflexivity.
Qed.

Lemma relocateBlocks_empty_image (fuel : nat) :
  forall r delta res data',
    relocateBlocks fuel r delta [] = Some (res, data') ->
    data' = [] /\ res <> Panic.
Proof.
  induction fuel as [|fuel IH]; intros r delta res data' H; [discriminate|].
  cbn [relocateBlocks] in H.
  destruct (binary_Read 4 r) as [pageRVA r1| |].
  2, 3: inversion H; subst; split; [reflexivity | discriminate].
  destruct (binary_Read 4 r1) as [blockSize r2| |].
  2, 3: inversion H; subst; split; [reflexivity | discriminate].
  pose proof (relocateEntries_empty_image r2 0 (uint32 (blockSize - 8) / 2)
                pageRVA delta) as He.
  destruct (relocateEntries r2 0 (uint32 (blockSize - 8) / 2) pageRVA delta [])
    as [r3 d1|res1 d1].
  - subst d1. apply (IH r3 delta). exact H.
  - inversion H; subst. exact He.
Qed.

(** X13. On an empty image the walk never panics and the image stays
    empty: a DIR64 entry, wherever it points, is refused with
    [ErrPeRelocOutOfBound]. *)
Theorem relocatePE_empty_image (relocData : list byte) (delta : Z) :
  snd (relocatePE relocData delta []) = [] /\
  fst (relocatePE relocData delta []) <> Panic /\
  (forall pageRVA entryOffset,
      relocateDIR64 pageRVA entryOffset delta [] = (Err ErrPeRelocOutOfBound, [])).
Proof.
  pose proof (relocatePE_fuel (S (length relocData)) relocData delta []
                (Nat.lt_succ_diag_r _)) as H.
  destruct (relocatePE relocData delta []) as [res data'].
  apply relocateBlocks_empty_image in H. destruct H as [-> Hres].
  split; [reflexivity|]. split; [exact Hres|].
  intros pageRVA entryOffset. apply relocateDIR64_out_of_bound.
  - change (len []) with 0. lia.
  - change (len []) with 0. apply relocAddr_range.
Qed.
